(** * analyze-errors: the error-log analysis engine

    A shallow embedding of [src/commands/py/analyze-errors/__init__.py]
    and the properties its specification states about it.

    Python text ([str]) is a sequence of Unicode code points; it is
    modelled as [list N].  The two standard-library services the source
    relies on, [re] and [json], are modelled by an executable backtracking
    matcher and a recursive-descent parser that follow CPython's
    behaviour on the constructs this program uses, including the two
    exceptions other than [JSONDecodeError] that [json.loads] raises on
    text: [RecursionError] on nesting beyond the recursion limit and
    [ValueError] on an integer beyond the digit limit.  What depends on
    the interpreter's Unicode tables, on binary floating point or on
    these limits is gathered in the record [runtime] and taken as a
    parameter. *)

From Stdlib Require Import String Ascii Bool Arith NArith ZArith Lia List.
From Stdlib Require Import DecimalString Sorted.
Import ListNotations.

Set Implicit Arguments.

(** ** Text *)

Definition pystr := list N.

Definition py (s : string) : pystr :=
  map N_of_ascii (list_ascii_of_string s).
Arguments py s%_string.

Definition ch (a : ascii) : N := N_of_ascii a.
Arguments ch a%_char.

(** The double-quote character. *)
Definition DQ : N := 34%N.
(** The newline character. *)
Definition NL : N := 10%N.

Fixpoint pystr_eqb (a b : pystr) : bool :=
  match a, b with
  | [], [] => true
  | x :: a', y :: b' => N.eqb x y && pystr_eqb a' b'
  | _, _ => false
  end.

Fixpoint startswith (prefix s : pystr) : bool :=
  match prefix, s with
  | [], _ => true
  | p :: prefix', c :: s' => N.eqb p c && startswith prefix' s'
  | _ :: _, [] => false
  end.

(** [needle in hay] *)
Fixpoint contains (needle hay : pystr) : bool :=
  startswith needle hay ||
  match hay with
  | [] => false
  | _ :: hay' => contains needle hay'
  end.

(** [sep.join(parts)] *)
Fixpoint join (sep : pystr) (parts : list pystr) : pystr :=
  match parts with
  | [] => []
  | [p] => p
  | p :: rest => p ++ sep ++ join sep rest
  end.

(** [str(n)] for an [int]. *)
Definition str_int (z : Z) : pystr :=
  py (NilZero.string_of_int (Z.to_int z)).

Definition str_nat (n : nat) : pystr := str_int (Z.of_nat n).

(** ** What the interpreter supplies

    [uni_lower], [uni_alnum], [uni_decimal] and [uni_printable] are the
    Unicode database's simple lower-case mapping, [str.isalnum],
    decimal-digit value and [str.isprintable]; they are consulted only for
    code points from 128 upwards.  [float_repr] is [repr(float(lexeme))]
    for the lexeme of a JSON number with a fraction or an exponent (and
    for [NaN], [Infinity], [-Infinity]).

    [int_max_str_digits] is [sys.get_int_max_str_digits()], the longest
    integer literal [int] converts (0: no limit).  [detect_depth] and
    [analyze_depth] are the numbers of nested arrays and objects
    [json.loads] can enter before the interpreter's recursion limit is
    reached, where [detect_log_format] calls it and where
    [analyze_error] calls it. *)
Record runtime : Type := {
  uni_lower : N -> N;
  uni_alnum : N -> bool;
  uni_decimal : N -> option N;
  uni_printable : N -> bool;
  float_repr : pystr -> pystr;
  int_max_str_digits : nat;
  detect_depth : nat;
  analyze_depth : nat
}.

(** A runtime whose tables are empty outside ASCII, for evaluating the
    program on ASCII inputs without floats.  Its limits are those of
    CPython 3.11 with its defaults (4300 digits, a recursion limit of
    1000) when [analyze_error] is called from the top level of a
    script. *)
Definition ascii_runtime : runtime := {|
  uni_lower := fun c => c;
  uni_alnum := fun _ => false;
  uni_decimal := fun _ => None;
  uni_printable := fun _ => false;
  float_repr := fun lexeme => lexeme;
  int_max_str_digits := 4300;
  detect_depth := 991;
  analyze_depth := 992
|}.

Definition is_ascii (c : N) : bool := (c <? 128)%N.
Definition between (lo hi c : N) : bool := ((lo <=? c) && (c <=? hi))%N.
Definition is_ascii_digit (c : N) : bool := between 48 57 c.
Definition is_ascii_upper (c : N) : bool := between 65 90 c.
Definition is_ascii_lower (c : N) : bool := between 97 122 c.
Definition is_ascii_alpha (c : N) : bool := is_ascii_upper c || is_ascii_lower c.

(** ** Regular expressions ([re])

    The syntax covers what the patterns of this program use: literals,
    character classes, concatenation, alternation, [?] on a
    sub-expression, greedy and lazy [*] on a single-character class, and
    numbered capturing groups.  [r+] is [r r*] and [r{3}] is [r r r]. *)

Inductive cset : Type :=
| CAny                       (* .      any character but a newline *)
| CWord                      (* \w *)
| CDigit                     (* \d *)
| COneOf (l : list N)        (* [...]  *)
| CNoneOf (l : list N).      (* [^...] *)

Inductive regex : Type :=
| RChar (c : N)
| RSet (cs : cset)
| RCat (r1 r2 : regex)
| RAlt (r1 r2 : regex)
| ROpt (r : regex)
| RStar (greedy : bool) (cs : cset)
| RGroup (i : nat) (r : regex).

Definition RPlus (greedy : bool) (cs : cset) : regex :=
  RCat (RSet cs) (RStar greedy cs).

Fixpoint RLit (s : pystr) : regex :=
  match s with
  | [] => ROpt (RSet (COneOf []))
  | [c] => RChar c
  | c :: s' => RCat (RChar c) (RLit s')
  end.

(** A match object: [start()], [end()], [group(0)] and the numbered
    groups that took part in the match. *)
Record rmatch : Type := {
  m_start : nat;
  m_end : nat;
  m_text : pystr;
  m_groups : list (nat * pystr)
}.

Fixpoint lookup_group (i : nat) (gs : list (nat * pystr)) : option pystr :=
  match gs with
  | [] => None
  | (j, v) :: gs' => if Nat.eqb i j then Some v else lookup_group i gs'
  end.

(** [m.group(i)]; [None] when the group took no part in the match. *)
Definition group (m : rmatch) (i : nat) : option pystr :=
  match i with
  | 0 => Some (m_text m)
  | _ => lookup_group i (m_groups m)
  end.

(** First success wins; the alternative is tried only on failure. *)
Notation "x 'orelse' y" :=
  (match x with Some a => Some a | None => y end)
  (at level 60, right associativity, only parsing).

Section Regex.

Variable rt : runtime.

Definition to_lower (c : N) : N :=
  if is_ascii c then (if is_ascii_upper c then c + 32 else c)%N
  else uni_lower rt c.

(** A pattern literal [c] against a text character [x].  The literals
    of this program's patterns are ASCII.  Under IGNORECASE a letter
    is compared with the lower-cased text character; [i] and [s]
    additionally match the dotless i (U+0131) and the long s (U+017F),
    whose lower-case forms are themselves.  Any other literal matches
    itself only. *)
Definition char_matches (icase : bool) (c x : N) : bool :=
  if icase && is_ascii_alpha c then
    let lc := to_lower c in
    let lx := to_lower x in
    N.eqb lc lx
    || (N.eqb lc 105 && N.eqb lx 305)
    || (N.eqb lc 115 && N.eqb lx 383)
  else N.eqb c x.

Definition is_word (c : N) : bool :=
  if is_ascii c then is_ascii_alpha c || is_ascii_digit c || N.eqb c 95
  else uni_alnum rt c.

Definition is_digit (c : N) : bool :=
  if is_ascii c then is_ascii_digit c
  else match uni_decimal rt c with Some _ => true | None => false end.

Definition in_cset (cs : cset) (x : N) : bool :=
  match cs with
  | CAny => negb (N.eqb x NL)
  | CWord => is_word x
  | CDigit => is_digit x
  | COneOf l => existsb (N.eqb x) l
  | CNoneOf l => negb (existsb (N.eqb x) l)
  end.

Section Matcher.

Variable icase : bool.
Variable A : Type.

(** [cs*] and [cs*?] followed by the continuation [k]. *)
Fixpoint star (cs : cset) (greedy : bool) (s : pystr)
    (k : pystr -> option A) : option A :=
  match s with
  | x :: s' =>
      if in_cset cs x then
        if greedy then star cs greedy s' k orelse k s
        else k s orelse star cs greedy s' k
      else k s
  | [] => k s
  end.

(** The backtracking matcher, in continuation-passing style: [k]
    receives the unread text and the groups captured so far, and the
    first alternative for which [k] succeeds wins. *)
Fixpoint rmatch_at (r : regex) (s : pystr) (gs : list (nat * pystr))
    (k : pystr -> list (nat * pystr) -> option A) : option A :=
  match r with
  | RChar c =>
      match s with
      | x :: s' => if char_matches icase c x then k s' gs else None
      | [] => None
      end
  | RSet cs =>
      match s with
      | x :: s' => if in_cset cs x then k s' gs else None
      | [] => None
      end
  | RCat r1 r2 => rmatch_at r1 s gs (fun s1 g1 => rmatch_at r2 s1 g1 k)
  | RAlt r1 r2 => rmatch_at r1 s gs k orelse rmatch_at r2 s gs k
  | ROpt r1 => rmatch_at r1 s gs k orelse k s gs
  | RStar greedy cs => star cs greedy s (fun s1 => k s1 gs)
  | RGroup i r1 =>
      rmatch_at r1 s gs
        (fun s1 g1 => k s1 ((i, firstn (length s - length s1) s) :: g1))
  end.

End Matcher.

(** A match of [r] that starts at the head of [s], which is at offset
    [pos] of the whole text. *)
Definition match_here (icase : bool) (r : regex) (pos : nat) (s : pystr)
    : option rmatch :=
  rmatch_at icase r s []
    (fun rest gs =>
       let n := length s - length rest in
       Some {| m_start := pos; m_end := pos + n;
               m_text := firstn n s; m_groups := gs |}).

(** [re.search]: the match at the leftmost position that has one. *)
Fixpoint search_from (icase : bool) (r : regex) (pos : nat) (s : pystr)
    : option rmatch :=
  match match_here icase r pos s with
  | Some m => Some m
  | None =>
      match s with
      | [] => None
      | _ :: s' => search_from icase r (S pos) s'
      end
  end.

Definition re_search (icase : bool) (r : regex) (s : pystr) : option rmatch :=
  search_from icase r 0 s.

(** [re.finditer]: successive non-overlapping matches, left to right.
    [skip] counts the characters still covered by the previous match. *)
Fixpoint finditer_from (r : regex) (pos skip : nat) (s : pystr)
    : list rmatch :=
  match skip with
  | S skip' =>
      match s with
      | [] => []
      | _ :: s' => finditer_from r (S pos) skip' s'
      end
  | 0 =>
      match match_here false r pos s with
      | Some m =>
          m :: match s with
               | [] => []
               | _ :: s' =>
                   finditer_from r (S pos) (pred (m_end m - m_start m)) s'
               end
      | None =>
          match s with
          | [] => []
          | _ :: s' => finditer_from r (S pos) 0 s'
          end
      end
  end.

Definition re_finditer (r : regex) (s : pystr) : list rmatch :=
  finditer_from r 0 0 s.

End Regex.

(** ** Exceptions *)

Inductive exn : Type :=
| TypeError (msg : pystr)
| ValueError (msg : pystr)
| RecursionError (msg : pystr).

(** [str(e)] *)
Definition exn_text (e : exn) : pystr :=
  match e with
  | TypeError msg => msg
  | ValueError msg => msg
  | RecursionError msg => msg
  end.

Inductive result (A : Type) : Type :=
| Ok (a : A)
| Raise (e : exn).
Arguments Ok {A} a.
Arguments Raise {A} e.

Definition bind {A B : Type} (x : result A) (f : A -> result B) : result B :=
  match x with
  | Ok a => f a
  | Raise e => Raise e
  end.

Notation "'do' x <- c1 ; c2" := (bind c1 (fun x => c2))
  (at level 61, x name, c1 at next level, right associativity).

(** ** JSON values and [json.loads] *)

#[warnings="-register-all"]
Inductive json : Type :=
| JNull
| JBool (b : bool)
| JInt (z : Z)
| JFloat (lexeme : pystr)
| JStr (s : pystr)
| JList (l : list json)
| JDict (d : list (pystr * json)).

(** [d[key] = v] on an insertion-ordered dict: an existing key keeps its
    place and takes the new value. *)
Fixpoint dict_set (key : pystr) (v : json) (d : list (pystr * json))
    : list (pystr * json) :=
  match d with
  | [] => [(key, v)]
  | (k, w) :: d' =>
      if pystr_eqb k key then (k, v) :: d' else (k, w) :: dict_set key v d'
  end.

(** [d.get(key, default)] *)
Fixpoint dict_get {V : Type} (d : list (pystr * V)) (key : pystr) (default : V)
    : V :=
  match d with
  | [] => default
  | (k, w) :: d' => if pystr_eqb k key then w else dict_get d' key default
  end.

Definition is_ws (c : N) : bool :=
  N.eqb c 32 || N.eqb c 9 || N.eqb c 10 || N.eqb c 13.

Fixpoint skip_ws (s : pystr) : pystr :=
  match s with
  | c :: s' => if is_ws c then skip_ws s' else s
  | [] => []
  end.

Definition hex_value (c : N) : option N :=
  if between 48 57 c then Some (c - 48)%N
  else if between 97 102 c then Some (c - 87)%N
  else if between 65 70 c then Some (c - 55)%N
  else None.

Definition hex4 (a b c d : N) : option N :=
  match hex_value a, hex_value b, hex_value c, hex_value d with
  | Some x, Some y, Some z, Some w => Some (((x * 16 + y) * 16 + z) * 16 + w)%N
  | _, _, _, _ => None
  end.

Definition simple_escape (e : N) : option N :=
  if N.eqb e DQ then Some DQ
  else if N.eqb e 92 then Some 92%N          (* \\ *)
  else if N.eqb e 47 then Some 47%N          (* \/ *)
  else if N.eqb e 98 then Some 8%N           (* \b *)
  else if N.eqb e 102 then Some 12%N         (* \f *)
  else if N.eqb e 110 then Some 10%N         (* \n *)
  else if N.eqb e 114 then Some 13%N         (* \r *)
  else if N.eqb e 116 then Some 9%N          (* \t *)
  else None.

Definition is_high_surrogate (u : N) : bool := between 55296 56319 u.
Definition is_low_surrogate (u : N) : bool := between 56320 57343 u.
Definition join_surrogates (hi lo : N) : N :=
  (65536 + (hi - 55296) * 1024 + (lo - 56320))%N.

(** The body of a string literal, after its opening quote: the decoded
    text and what follows the closing quote.  Control characters are
    refused (strict mode); a high surrogate escape directly followed by a
    low surrogate escape is one code point. *)
Fixpoint scanstring (s : pystr) (acc : pystr) : option (pystr * pystr) :=
  match s with
  | [] => None
  | c :: s' =>
      if N.eqb c DQ then Some (rev acc, s')
      else if N.eqb c 92 then
        match s' with
        | [] => None
        | e :: s'' =>
            if N.eqb e 117 then
              match s'' with
              | h1 :: h2 :: h3 :: h4 :: t =>
                  match hex4 h1 h2 h3 h4 with
                  | None => None
                  | Some u =>
                      match t with
                      | b :: v :: g1 :: g2 :: g3 :: g4 :: t' =>
                          if is_high_surrogate u && N.eqb b 92 && N.eqb v 117
                          then
                            match hex4 g1 g2 g3 g4 with
                            | None => None
                            | Some u2 =>
                                if is_low_surrogate u2
                                then scanstring t' (join_surrogates u u2 :: acc)
                                else scanstring t (u :: acc)
                            end
                          else scanstring t (u :: acc)
                      | _ => scanstring t (u :: acc)
                      end
                  end
              | _ => None
              end
            else
              match simple_escape e with
              | Some x => scanstring s'' (x :: acc)
              | None => None
              end
        end
      else if (c <? 32)%N then None
      else scanstring s' (c :: acc)
  end.

Fixpoint span_digits (s : pystr) : pystr * pystr :=
  match s with
  | c :: s' =>
      if is_ascii_digit c
      then let (ds, rest) := span_digits s' in (c :: ds, rest)
      else ([], s)
  | [] => ([], [])
  end.

Definition digits_value (ds : pystr) : Z :=
  fold_left (fun acc c => (acc * 10 + (Z.of_N c - 48))%Z) ds 0%Z.

(** The integer part of a number: [0] or a digit from 1 to 9 followed by
    digits. *)
Definition int_part (s : pystr) : option (pystr * pystr) :=
  match s with
  | c :: s' =>
      if N.eqb c 48 then Some ([c], s')
      else if is_ascii_digit c then Some (span_digits s)
      else None
  | [] => None
  end.

(** [.digits], when a digit follows the point. *)
Definition frac_part (s : pystr) : pystr * pystr :=
  match s with
  | p :: d :: s' =>
      if N.eqb p 46 && is_ascii_digit d
      then let (ds, rest) := span_digits (d :: s') in (p :: ds, rest)
      else ([], s)
  | _ => ([], s)
  end.

(** [e], an optional sign and digits, when a digit follows. *)
Definition exp_part (s : pystr) : pystr * pystr :=
  match s with
  | e :: s1 =>
      if N.eqb e 101 || N.eqb e 69 then
        match s1 with
        | g :: s2 =>
            if N.eqb g 43 || N.eqb g 45 then
              match s2 with
              | d :: _ =>
                  if is_ascii_digit d
                  then let (ds, rest) := span_digits s2 in (e :: g :: ds, rest)
                  else ([], s)
              | [] => ([], s)
              end
            else if is_ascii_digit g
            then let (ds, rest) := span_digits s1 in (e :: ds, rest)
            else ([], s)
        | [] => ([], s)
        end
      else ([], s)
  | [] => ([], s)
  end.

(** What the scanner makes of the text before it: a value and the text
    that follows, a refusal ([JSONDecodeError]), or another exception
    raised on the way. *)
Inductive scan (A : Type) : Type :=
| Parsed (a : A) (rest : pystr)
| Invalid
| Fails (e : exn)
| OutOfFuel.
Arguments Parsed {A} a rest.
Arguments Invalid {A}.
Arguments Fails {A} e.
Arguments OutOfFuel {A}.

(** [int(digits)] refuses a run of more than [max_digits] digits, when
    that limit is set and the run has more than 640 digits. *)
Definition int_too_long (max_digits : nat) (digits : pystr) : bool :=
  (640 <? length digits) && (0 <? max_digits)
  && (max_digits <? length digits).

Definition INT_LIMIT_ERROR (max_digits digits : nat) : exn :=
  ValueError
    (py "Exceeds the limit (" ++ str_nat max_digits
     ++ py " digits) for integer string conversion: value has "
     ++ str_nat digits
     ++ py " digits; use sys.set_int_max_str_digits() to increase the limit").

(** A number at the head of [s]: an [int] when it has neither fraction
    nor exponent, a [float] otherwise.  The [int] is converted on the
    spot, so that too long a run of digits raises before the scanner
    looks at what follows. *)
Definition match_number (max_digits : nat) (s : pystr) : scan json :=
  let (sign, s0) :=
    match s with
    | c :: s' => if N.eqb c 45 then ([c], s') else ([], s)
    | [] => ([], s)
    end in
  match int_part s0 with
  | None => Invalid
  | Some (ip, s1) =>
      let (fp, s2) := frac_part s1 in
      let (ep, s3) := exp_part s2 in
      match fp, ep with
      | [], [] =>
          if int_too_long max_digits ip
          then Fails (INT_LIMIT_ERROR max_digits (length ip))
          else
            let n := digits_value ip in
            Parsed (JInt (match sign with [] => n | _ => (- n)%Z end)) s3
      | _, _ => Parsed (JFloat (sign ++ ip ++ fp ++ ep)) s3
      end
  end.

Definition OBJECT_DEPTH_ERROR : exn :=
  RecursionError
    (py "maximum recursion depth exceeded while decoding a JSON object from a unicode string").

Definition ARRAY_DEPTH_ERROR : exn :=
  RecursionError
    (py "maximum recursion depth exceeded while decoding a JSON array from a unicode string").

(** One value at the head of [s] ([scan_once]), the elements of an
    array after its opening bracket, and the members of an object after
    its opening brace.  [depth] is the number of arrays and objects that
    can still be entered: the scanner enters a recursive call of the
    interpreter at every opening bracket and brace.  [fuel] bounds the
    depth of the calls of this definition. *)
Fixpoint scan_once (max_digits fuel depth : nat) (s : pystr) {struct fuel}
    : scan json :=
  match fuel with
  | 0 => OutOfFuel
  | S fuel' =>
      match s with
      | [] => Invalid
      | c :: s' =>
          if N.eqb c DQ then
            match scanstring s' [] with
            | Some (v, rest) => Parsed (JStr v) rest
            | None => Invalid
            end
          else if N.eqb c 123 then
            match depth with
            | 0 => Fails OBJECT_DEPTH_ERROR
            | S depth' =>
                match skip_ws s' with
                | c1 :: rest =>
                    if N.eqb c1 125 then Parsed (JDict []) rest
                    else object_items max_digits fuel' depth' (c1 :: rest) []
                | [] => Invalid
                end
            end
          else if N.eqb c 91 then
            match depth with
            | 0 => Fails ARRAY_DEPTH_ERROR
            | S depth' =>
                match skip_ws s' with
                | c1 :: rest =>
                    if N.eqb c1 93 then Parsed (JList []) rest
                    else array_items max_digits fuel' depth' (c1 :: rest) []
                | [] => Invalid
                end
            end
          else if startswith (py "null") s then Parsed JNull (skipn 4 s)
          else if startswith (py "true") s then Parsed (JBool true) (skipn 4 s)
          else if startswith (py "false") s then Parsed (JBool false) (skipn 5 s)
          else if startswith (py "NaN") s then Parsed (JFloat (py "NaN")) (skipn 3 s)
          else if startswith (py "Infinity") s
          then Parsed (JFloat (py "Infinity")) (skipn 8 s)
          else if startswith (py "-Infinity") s
          then Parsed (JFloat (py "-Infinity")) (skipn 9 s)
          else match_number max_digits s
      end
  end

with array_items (max_digits fuel depth : nat) (s : pystr) (acc : list json)
    {struct fuel} : scan json :=
  match fuel with
  | 0 => OutOfFuel
  | S fuel' =>
      match scan_once max_digits fuel' depth s with
      | Parsed v rest =>
          match skip_ws rest with
          | c :: r2 =>
              if N.eqb c 93 then Parsed (JList (rev (v :: acc))) r2
              else if N.eqb c 44
              then array_items max_digits fuel' depth (skip_ws r2) (v :: acc)
              else Invalid
          | [] => Invalid
          end
      | Invalid => Invalid
      | Fails e => Fails e
      | OutOfFuel => OutOfFuel
      end
  end

with object_items (max_digits fuel depth : nat) (s : pystr)
    (acc : list (pystr * json)) {struct fuel} : scan json :=
  match fuel with
  | 0 => OutOfFuel
  | S fuel' =>
      match s with
      | [] => Invalid
      | q :: s' =>
          if N.eqb q DQ then
            match scanstring s' [] with
            | None => Invalid
            | Some (key, r0) =>
                match skip_ws r0 with
                | [] => Invalid
                | c1 :: r1 =>
                    if N.eqb c1 58 then
                      match scan_once max_digits fuel' depth (skip_ws r1) with
                      | Parsed v r2 =>
                          match skip_ws r2 with
                          | [] => Invalid
                          | c2 :: r3 =>
                              if N.eqb c2 125
                              then Parsed (JDict (dict_set key v acc)) r3
                              else if N.eqb c2 44
                              then object_items max_digits fuel' depth
                                     (skip_ws r3) (dict_set key v acc)
                              else Invalid
                          end
                      | Invalid => Invalid
                      | Fails e => Fails e
                      | OutOfFuel => OutOfFuel
                      end
                    else Invalid
                end
            end
          else Invalid
      end
  end.

(** The fuel [json_loads] gives the scanner; [scan_fuel_enough] below
    shows that it never runs out. *)
Definition loads_fuel (s : pystr) : nat := 2 * length s + 2.

Definition decode (rt : runtime) (depth : nat) (s : pystr) : scan json :=
  scan_once (int_max_str_digits rt) (loads_fuel s) depth (skip_ws s).

(** What a call of [json.loads] comes to: the value of a complete
    document, [JSONDecodeError], or another exception. *)
Inductive loaded : Type :=
| Loaded (v : json)
| JSONDecodeError
| LoadsRaises (e : exn).

(** [json.loads(s)] called where [depth] arrays and objects can be
    entered.  The document is complete when only white space follows
    the value. *)
Definition json_loads (rt : runtime) (depth : nat) (s : pystr) : loaded :=
  match decode rt depth s with
  | Parsed v rest =>
      match skip_ws rest with
      | [] => Loaded v
      | _ :: _ => JSONDecodeError
      end
  | Invalid => JSONDecodeError
  | Fails e => LoadsRaises e
  | OutOfFuel => JSONDecodeError
  end.

(** ** [repr] and [str] of parsed values *)

Definition hex_digit (n : N) : N :=
  if (n <? 10)%N then (48 + n)%N else (87 + n)%N.

(** The [width] lower-case hexadecimal digits of [c]. *)
Fixpoint hex_digits (width : nat) (c : N) : pystr :=
  match width with
  | 0 => []
  | S w => hex_digits w (c / 16) ++ [hex_digit (c mod 16)]
  end.

Section Repr.

Variable rt : runtime.

Definition is_printable (c : N) : bool :=
  if is_ascii c then between 32 126 c else uni_printable rt c.

Definition repr_char (quote c : N) : pystr :=
  if N.eqb c quote || N.eqb c 92 then [92%N; c]
  else if N.eqb c 9 then py "\t"
  else if N.eqb c 10 then py "\n"
  else if N.eqb c 13 then py "\r"
  else if is_printable c then [c]
  else if (c <? 256)%N then py "\x" ++ hex_digits 2 c
  else if (c <? 65536)%N then py "\u" ++ hex_digits 4 c
  else py "\U" ++ hex_digits 8 c.

(** [repr(s)] for a [str]: single quotes, unless the text has a single
    quote and no double quote. *)
Definition repr_str (s : pystr) : pystr :=
  let quote :=
    if existsb (N.eqb 39) s && negb (existsb (N.eqb DQ) s) then DQ else 39%N in
  [quote] ++ flat_map (repr_char quote) s ++ [quote].

(** [repr(v)] of a parsed value.  It enters one recursive call of the
    interpreter for each level of nesting, as the scanner did when it
    parsed [v], and is called from a frame that is less deep than the
    scanner's; so it does not reach the recursion limit on a value that
    [json.loads] returned (CPython 3.11).  Nor does [str] of an [int]
    reach the digit limit, which the literal has passed. *)
Fixpoint py_repr (v : json) : pystr :=
  match v with
  | JNull => py "None"
  | JBool true => py "True"
  | JBool false => py "False"
  | JInt z => str_int z
  | JFloat lexeme => float_repr rt lexeme
  | JStr s => repr_str s
  | JList l => py "[" ++ join (py ", ") (map py_repr l) ++ py "]"
  | JDict d =>
      py "{"
      ++ join (py ", ")
           (map (fun kv : pystr * json =>
                   let (k, w) := kv in repr_str k ++ py ": " ++ py_repr w) d)
      ++ py "}"
  end.

(** [str(v)] *)
Definition py_str (v : json) : pystr :=
  match v with
  | JStr s => s
  | _ => py_repr v
  end.

End Repr.

(** [type(v).__name__] *)
Definition type_name (v : json) : pystr :=
  match v with
  | JNull => py "NoneType"
  | JBool _ => py "bool"
  | JInt _ => py "int"
  | JFloat _ => py "float"
  | JStr _ => py "str"
  | JList _ => py "list"
  | JDict _ => py "dict"
  end.

(** [a + b] where [b] is a [str]. *)
Definition add_str (a : json) (b : pystr) : result pystr :=
  match a with
  | JStr s => Ok (s ++ b)
  | JList _ =>
      Raise (TypeError
        (py "can only concatenate list (not " ++ [DQ] ++ py "str" ++ [DQ]
         ++ py ") to list"))
  | _ =>
      Raise (TypeError
        (py "unsupported operand type(s) for +: '" ++ type_name a
         ++ py "' and 'str'"))
  end.

(** [a + b] where [a] is a [str]. *)
Definition str_add (a : pystr) (b : json) : result pystr :=
  match b with
  | JStr s => Ok (a ++ s)
  | _ =>
      Raise (TypeError
        (py "can only concatenate str (not " ++ [DQ] ++ type_name b ++ [DQ]
         ++ py ") to str"))
  end.

(** ** The program *)

Definition lit (s : string) : regex := RLit (py s).
Arguments lit s%_string.

Fixpoint seq (rs : list regex) : regex :=
  match rs with
  | [] => RLit []
  | [r] => r
  | r :: rs' => RCat r (seq rs')
  end.

Definition word1 : regex := RPlus true CWord.        (* \w+ *)
Definition digits1 : regex := RPlus true CDigit.     (* \d+ *)
Definition any1 : regex := RPlus true CAny.          (* .+  *)
Definition any0 : regex := RStar true CAny.          (* .*  *)
Definition quote : regex := RSet (COneOf [39%N; DQ]). (* ' or a double quote *)
Definition digit3 : regex :=                         (* \d{3} *)
  seq [RSet CDigit; RSet CDigit; RSet CDigit].

(** [m.group(i)] for a group that took part in the match; every group of
    every pattern below does ([signature_groups_take_part],
    [frame_groups_take_part]). *)
Definition group_str (m : rmatch) (i : nat) : pystr :=
  match group m i with
  | Some s => s
  | None => []
  end.

(** [s.split('/')[0]] *)
Fixpoint before_slash (s : pystr) : pystr :=
  match s with
  | [] => []
  | c :: s' => if N.eqb c 47 then [] else c :: before_slash s'
  end.

Record Signature : Type := {
  sig_pattern : pystr;
  sig_regex : regex;
  explanation_fn : rmatch -> result pystr
}.

Record StackFrame : Type := {
  file : pystr;
  line : pystr;
  function : pystr
}.

Record MatchedError : Type := {
  pattern : pystr;
  matched : pystr;
  explanation : pystr
}.

Record Analysis : Type := {
  format_detected : pystr;
  errors_found : list MatchedError;
  suggestions : list pystr;
  stack_frames : list StackFrame
}.

Record CommandResult : Type := {
  success : bool;
  output : pystr;
  error : option pystr
}.

(** What the file system answers for a path: not a regular file, a
    file whose reading fails with the given error text, or a file with
    the given contents. *)
Inductive file_read : Type :=
| NotAFile
| ReadFails (err : pystr)
| Contents (text : pystr).

Definition NO_MATCH_SUGGESTION : pystr :=
  py "No known error patterns matched. Review the full log for context.".

Definition GENERIC_SUGGESTIONS : list pystr :=
  [ py "Add logging around the error location for more context";
    py "Check if this error is reproducible consistently";
    py "Review recent code changes that might have caused this" ].

Definition location_suggestion (f : StackFrame) : pystr :=
  py "Error originated in " ++ file f ++ py ":" ++ line f
  ++ py " in function " ++ function f.

Definition HTTP_EXPLANATIONS : list (Z * pystr) :=
  [ (400, py "Bad Request - The server couldn't understand the request. Check request format.");
    (401, py "Unauthorized - Authentication required. Check API keys or login credentials.");
    (403, py "Forbidden - Access denied. Check permissions and authorization.");
    (404, py "Not Found - The resource doesn't exist. Verify the URL.");
    (405, py "Method Not Allowed - Wrong HTTP method. Check if using GET/POST/PUT/DELETE correctly.");
    (408, py "Request Timeout - The request took too long. Try again or increase timeout.");
    (429, py "Too Many Requests - Rate limited. Implement backoff and retry logic.");
    (500, py "Internal Server Error - Server-side issue. Check server logs.");
    (502, py "Bad Gateway - Proxy/load balancer issue. Check upstream services.");
    (503, py "Service Unavailable - Server is overloaded or under maintenance.");
    (504, py "Gateway Timeout - Upstream server didn't respond in time.") ]%Z.

Fixpoint http_lookup (table : list (Z * pystr)) (code : Z) : option pystr :=
  match table with
  | [] => None
  | (k, v) :: table' => if Z.eqb k code then Some v else http_lookup table' code
  end.

Definition get_http_error_explanation (status_code : Z) : pystr :=
  match http_lookup HTTP_EXPLANATIONS status_code with
  | Some text => text
  | None =>
      py "HTTP error " ++ str_int status_code
      ++ py ". Check the API documentation."
  end.

Section Program.

Variable rt : runtime.

Definition digit_value (c : N) : option N :=
  if is_ascii c then (if is_ascii_digit c then Some (c - 48)%N else None)
  else uni_decimal rt c.

Fixpoint digits_to_int (s : pystr) (acc : Z) : option Z :=
  match s with
  | [] => Some acc
  | c :: s' =>
      match digit_value c with
      | Some d => digits_to_int s' (acc * 10 + Z.of_N d)%Z
      | None => None
      end
  end.

(** [int(s)] on a text of decimal digits, which is all that [\d{3}]
    passes to it; anything else is reported as the [ValueError] that
    [int] raises on a text that is no number. *)
Definition py_int (s : pystr) : result Z :=
  match s with
  | [] => Raise (ValueError
            (py "invalid literal for int() with base 10: " ++ repr_str rt s))
  | _ :: _ =>
      match digits_to_int s 0%Z with
      | Some z => Ok z
      | None => Raise (ValueError
                  (py "invalid literal for int() with base 10: "
                   ++ repr_str rt s))
      end
  end.

Definition ERROR_PATTERNS : list Signature :=
  [ (* Python errors *)
    {| sig_pattern := py "ModuleNotFoundError: No module named '(\w+)'";
       sig_regex :=
         seq [lit "ModuleNotFoundError: No module named '";
              RGroup 1 word1; lit "'"];
       explanation_fn := fun m =>
         Ok (py "Python module '" ++ group_str m 1
             ++ py "' is not installed. Try: pip install " ++ group_str m 1) |};
    {| sig_pattern := py "ImportError: cannot import name '(\w+)' from '(\w+)'";
       sig_regex :=
         seq [lit "ImportError: cannot import name '"; RGroup 1 word1;
              lit "' from '"; RGroup 2 word1; lit "'"];
       explanation_fn := fun m =>
         Ok (py "Cannot import '" ++ group_str m 1 ++ py "' from '"
             ++ group_str m 2
             ++ py "'. Check if it exists or if there's a circular import.") |};
    {| sig_pattern :=
         py "TypeError: (\w+)\(\) takes (\d+) positional arguments? but (\d+) (?:was|were) given";
       sig_regex :=
         seq [lit "TypeError: "; RGroup 1 word1; lit "() takes ";
              RGroup 2 digits1; lit " positional argument";
              ROpt (lit "s"); lit " but "; RGroup 3 digits1; lit " ";
              RAlt (lit "was") (lit "were"); lit " given"];
       explanation_fn := fun m =>
         Ok (py "Function '" ++ group_str m 1 ++ py "' expects "
             ++ group_str m 2 ++ py " argument(s) but received "
             ++ group_str m 3 ++ py ".") |};
    {| sig_pattern :=
         py "AttributeError: '(\w+)' object has no attribute '(\w+)'";
       sig_regex :=
         seq [lit "AttributeError: '"; RGroup 1 word1;
              lit "' object has no attribute '"; RGroup 2 word1; lit "'"];
       explanation_fn := fun m =>
         Ok (py "Object of type '" ++ group_str m 1
             ++ py "' doesn't have attribute '" ++ group_str m 2
             ++ py "'. Check spelling or if the object is the correct type.") |};
    {| sig_pattern :=
         py "KeyError: ['\" ++ [DQ] ++ py "]?(\w+)['\" ++ [DQ] ++ py "]?";
       sig_regex :=
         seq [lit "KeyError: "; ROpt quote; RGroup 1 word1; ROpt quote];
       explanation_fn := fun m =>
         Ok (py "Dictionary key '" ++ group_str m 1
             ++ py "' not found. Use .get() for safe access or check if key exists.") |};
    {| sig_pattern := py "ValueError: (.+)";
       sig_regex := seq [lit "ValueError: "; RGroup 1 any1];
       explanation_fn := fun m =>
         Ok (py "Invalid value: " ++ group_str m 1
             ++ py ". Validate input data before processing.") |};
    {| sig_pattern :=
         py "FileNotFoundError: \[Errno 2\] No such file or directory: ['\"
         ++ [DQ] ++ py "](.+)['\" ++ [DQ] ++ py "]";
       sig_regex :=
         seq [lit "FileNotFoundError: [Errno 2] No such file or directory: ";
              quote; RGroup 1 any1; quote];
       explanation_fn := fun m =>
         Ok (py "File not found: '" ++ group_str m 1
             ++ py "'. Check the path exists and has correct permissions.") |};
    {| sig_pattern :=
         py "PermissionError: \[Errno 13\] Permission denied: ['\"
         ++ [DQ] ++ py "](.+)['\" ++ [DQ] ++ py "]";
       sig_regex :=
         seq [lit "PermissionError: [Errno 13] Permission denied: ";
              quote; RGroup 1 any1; quote];
       explanation_fn := fun m =>
         Ok (py "Permission denied for: '" ++ group_str m 1
             ++ py "'. Check file permissions or run with elevated privileges.") |};
    (* JavaScript/Node errors *)
    {| sig_pattern := py "ReferenceError: (\w+) is not defined";
       sig_regex :=
         seq [lit "ReferenceError: "; RGroup 1 word1; lit " is not defined"];
       explanation_fn := fun m =>
         Ok (py "Variable '" ++ group_str m 1
             ++ py "' is not defined. Check for typos or ensure it's in scope.") |};
    {| sig_pattern :=
         py "TypeError: Cannot read propert(?:y|ies) ['\" ++ [DQ]
         ++ py "]?(\w+)['\" ++ [DQ] ++ py "]? of (undefined|null)";
       sig_regex :=
         seq [lit "TypeError: Cannot read propert";
              RAlt (lit "y") (lit "ies"); lit " "; ROpt quote;
              RGroup 1 word1; ROpt quote; lit " of ";
              RGroup 2 (RAlt (lit "undefined") (lit "null"))];
       explanation_fn := fun m =>
         Ok (py "Tried to access '" ++ group_str m 1 ++ py "' on "
             ++ group_str m 2
             ++ py ". Add null checks or optional chaining (?.).") |};
    {| sig_pattern := py "SyntaxError: Unexpected token (.+)";
       sig_regex := seq [lit "SyntaxError: Unexpected token "; RGroup 1 any1];
       explanation_fn := fun m =>
         Ok (py "Syntax error: unexpected '" ++ group_str m 1
             ++ py "'. Check for missing brackets, quotes, or semicolons.") |};
    {| sig_pattern :=
         py "Error: ENOENT: no such file or directory, (?:open|stat) ['\"
         ++ [DQ] ++ py "](.+)['\" ++ [DQ] ++ py "]";
       sig_regex :=
         seq [lit "Error: ENOENT: no such file or directory, ";
              RAlt (lit "open") (lit "stat"); lit " ";
              quote; RGroup 1 any1; quote];
       explanation_fn := fun m =>
         Ok (py "Node.js cannot find file: '" ++ group_str m 1
             ++ py "'. Verify the path exists.") |};
    {| sig_pattern :=
         py "Error: Cannot find module ['\" ++ [DQ] ++ py "](.+)['\"
         ++ [DQ] ++ py "]";
       sig_regex :=
         seq [lit "Error: Cannot find module "; quote; RGroup 1 any1; quote];
       explanation_fn := fun m =>
         Ok (py "Node module '" ++ group_str m 1
             ++ py "' not found. Try: npm install "
             ++ before_slash (group_str m 1)) |};
    (* Database errors *)
    {| sig_pattern := py "(?:psycopg2\.)?OperationalError.*connection.*refused";
       sig_regex :=
         seq [ROpt (lit "psycopg2."); lit "OperationalError"; any0;
              lit "connection"; any0; lit "refused"];
       explanation_fn := fun _ =>
         Ok (py "Database connection refused. Check if the database server is running and accessible.") |};
    {| sig_pattern :=
         py "(?:sqlite3\.)?IntegrityError.*UNIQUE constraint failed: (\w+)\.(\w+)";
       sig_regex :=
         seq [ROpt (lit "sqlite3."); lit "IntegrityError"; any0;
              lit "UNIQUE constraint failed: "; RGroup 1 word1; lit ".";
              RGroup 2 word1];
       explanation_fn := fun m =>
         Ok (py "Duplicate value in " ++ group_str m 1 ++ py "."
             ++ group_str m 2 ++ py ". The value must be unique.") |};
    {| sig_pattern := py "(?:mysql\.connector\.)?IntegrityError.*Duplicate entry";
       sig_regex :=
         seq [ROpt (lit "mysql.connector."); lit "IntegrityError"; any0;
              lit "Duplicate entry"];
       explanation_fn := fun _ =>
         Ok (py "Duplicate entry violates unique constraint. Check for existing records.") |};
    (* Network errors *)
    {| sig_pattern := py "ConnectionRefusedError|ECONNREFUSED";
       sig_regex := RAlt (lit "ConnectionRefusedError") (lit "ECONNREFUSED");
       explanation_fn := fun _ =>
         Ok (py "Connection refused. The target service may be down or the port may be wrong.") |};
    {| sig_pattern := py "TimeoutError|ETIMEDOUT";
       sig_regex := RAlt (lit "TimeoutError") (lit "ETIMEDOUT");
       explanation_fn := fun _ =>
         Ok (py "Connection timed out. Check network connectivity and service availability.") |};
    {| sig_pattern := py "(?:requests\.exceptions\.)?HTTPError.*(\d{3})";
       sig_regex :=
         seq [ROpt (lit "requests.exceptions."); lit "HTTPError"; any0;
              RGroup 1 digit3];
       explanation_fn := fun m =>
         do code <- py_int (group_str m 1);
         Ok (get_http_error_explanation code) |} ].

(** The Python frame line: [File], a quoted path without quotes inside
    (group 1), [line] and digits (group 2), [in] and a name (group 3). *)
Definition py_pattern : regex :=
  seq [lit "File "; RChar DQ; RGroup 1 (RPlus true (CNoneOf [DQ])); RChar DQ;
       lit ", line "; RGroup 2 digits1; lit ", in "; RGroup 3 word1].

(** [at (\w+).*?\((.+?):(\d+):\d+\)] *)
Definition js_pattern : regex :=
  seq [lit "at "; RGroup 1 word1; RStar false CAny; lit "(";
       RGroup 2 (RPlus false CAny); lit ":"; RGroup 3 digits1; lit ":";
       digits1; lit ")"].

(** [at \w+.*?\(.+?:\d+:\d+\)], the same shape without groups. *)
Definition js_probe : regex :=
  seq [lit "at "; word1; RStar false CAny; lit "(";
       RPlus false CAny; lit ":"; digits1; lit ":"; digits1; lit ")"].

Definition py_frame (m : rmatch) : StackFrame :=
  {| file := group_str m 1; line := group_str m 2; function := group_str m 3 |}.

Definition js_frame (m : rmatch) : StackFrame :=
  {| file := group_str m 2; line := group_str m 3; function := group_str m 1 |}.

(** The two [for] loops append to [frames], one match at a time. *)
Definition extract_stack_frames (log : pystr) : list StackFrame :=
  let frames := [] in
  let frames :=
    fold_left (fun frames m => frames ++ [py_frame m])
      (re_finditer rt py_pattern log) frames in
  let frames :=
    fold_left (fun frames m => frames ++ [js_frame m])
      (re_finditer rt js_pattern log) frames in
  frames.

Definition TRACEBACK_HEADER : pystr := py "Traceback (most recent call last):".

(** The [try] absorbs [JSONDecodeError] and no other exception. *)
Definition detect_log_format (log : pystr) : result pystr :=
  match json_loads rt (detect_depth rt) log with
  | Loaded _ => Ok (py "json")
  | LoadsRaises e => Raise e
  | JSONDecodeError =>
      if contains TRACEBACK_HEADER log then Ok (py "python")
      else
        match re_search rt false js_probe log with
        | Some _ => Ok (py "javascript")
        | None => Ok (py "plain")
        end
  end.

(** The text the rest of [analyze_error] works on: under the [json]
    format a parsed mapping replaces [log] by its [message], [error] and
    [stack] fields; anything else leaves [log] as it is.  Here too the
    [try] absorbs [JSONDecodeError] only. *)
Definition unwrap_json (log log_format : pystr) : result pystr :=
  if pystr_eqb log_format (py "json") then
    match json_loads rt (analyze_depth rt) log with
    | Loaded (JDict parsed) =>
        do t1 <- add_str (dict_get parsed (py "message") (JStr [])) (py " ");
        do t2 <- str_add t1 (dict_get parsed (py "error") (JStr []));
        Ok (t2 ++ py " " ++ py_str rt (dict_get parsed (py "stack") (JStr [])))
    | Loaded _ => Ok log
    | JSONDecodeError => Ok log
    | LoadsRaises e => Raise e
    end
  else Ok log.

(** One turn of the loop over [ERROR_PATTERNS]. *)
Definition match_signature (log : pystr) (found : list MatchedError)
    (sig : Signature) : result (list MatchedError) :=
  match re_search rt true (sig_regex sig) log with
  | Some m =>
      do text <- explanation_fn sig m;
      Ok (found ++ [{| pattern := sig_pattern sig;
                       matched := m_text m;
                       explanation := text |}])
  | None => Ok found
  end.

Definition match_signatures (log : pystr) : result (list MatchedError) :=
  fold_left (fun acc sig => do found <- acc; match_signature log found sig)
    ERROR_PATTERNS (Ok []).

Definition resolve_format (log log_format : pystr) : result pystr :=
  if pystr_eqb log_format (py "auto") then detect_log_format log
  else Ok log_format.

Definition analyze_error (log log_format : pystr) : result Analysis :=
  do log_format <- resolve_format log log_format;
  do log <- unwrap_json log log_format;
  do found <- match_signatures log;
  let frames := extract_stack_frames log in
  let suggestions := [] in
  let suggestions :=
    match found with
    | [] => suggestions ++ [NO_MATCH_SUGGESTION]
    | _ :: _ => suggestions
    end in
  let suggestions :=
    match frames with
    | first_frame :: _ => suggestions ++ [location_suggestion first_frame]
    | [] => suggestions
    end in
  let suggestions := suggestions ++ GENERIC_SUGGESTIONS in
  Ok {| format_detected := log_format;
        errors_found := found;
        suggestions := suggestions;
        stack_frames := frames |}.

Definition format_error (i : nat) (e : MatchedError) : list pystr :=
  [ py "### Error " ++ str_nat i;
    py "**Match:** `" ++ matched e ++ py "`";
    py "**Explanation:** " ++ explanation e;
    [] ].

Fixpoint format_errors (i : nat) (es : list MatchedError) : list pystr :=
  match es with
  | [] => []
  | e :: es' => format_error i e ++ format_errors (S i) es'
  end.

Definition format_frame (f : StackFrame) : pystr :=
  py "- `" ++ file f ++ py ":" ++ line f ++ py "` in `" ++ function f ++ py "`".

Definition format_analysis (analysis : Analysis) : pystr :=
  let lines :=
    [ py "# Error Analysis Report";
      [];
      py "**Log Format:** " ++ format_detected analysis;
      [] ] in
  let lines :=
    match errors_found analysis with
    | [] => lines
    | _ :: _ =>
        lines ++ [py "## Errors Identified"; []]
        ++ format_errors 1 (errors_found analysis)
    end in
  let lines :=
    match stack_frames analysis with
    | [] => lines
    | _ :: _ =>
        lines ++ [py "## Stack Trace"; []]
        ++ map format_frame (firstn 10 (stack_frames analysis)) ++ [[]]
    end in
  let lines :=
    match suggestions analysis with
    | [] => lines
    | _ :: _ =>
        lines ++ [py "## Suggestions"; []]
        ++ map (fun s => py "- " ++ s) (suggestions analysis)
    end in
  join [NL] lines.

(** [execute] against a file system [fs]; [args] holds the text
    arguments by name.  [run_analysis] is the final [try] block. *)
Definition run_analysis (log_input log_format : pystr) : CommandResult :=
  match
    (do analysis <- analyze_error log_input log_format;
     Ok (format_analysis analysis))
  with
  | Ok text => {| success := true; output := text; error := None |}
  | Raise e =>
      {| success := false; output := [];
         error := Some (py "Analysis failed: " ++ exn_text e) |}
  end.

Definition execute (fs : pystr -> file_read) (args : list (pystr * pystr))
    : CommandResult :=
  let log_input := dict_get args (py "log") [] in
  let log_format := dict_get args (py "format") (py "auto") in
  match log_input with
  | [] =>
      {| success := false; output := [];
         error := Some (py "No log input provided. Use log='...' to provide error text.") |}
  | _ :: _ =>
      match fs log_input with
      | ReadFails err =>
          {| success := false; output := [];
             error := Some (py "Failed to read log file: " ++ err) |}
      | Contents text => run_analysis text log_format
      | NotAFile => run_analysis log_input log_format
      end
  end.

End Program.

(** ** Vocabulary of the statements *)

(** Group [i] lies on every path through [r]. *)
Fixpoint mandatory (r : regex) (i : nat) : bool :=
  match r with
  | RChar _ | RSet _ | RStar _ _ | ROpt _ => false
  | RCat r1 r2 => mandatory r1 i || mandatory r2 i
  | RAlt r1 r2 => mandatory r1 i && mandatory r2 i
  | RGroup j r1 => Nat.eqb i j || mandatory r1 i
  end.

(** The group numbers that occur in [r]. *)
Fixpoint groups_of (r : regex) : list nat :=
  match r with
  | RChar _ | RSet _ | RStar _ _ => []
  | RCat r1 r2 | RAlt r1 r2 => groups_of r1 ++ groups_of r2
  | ROpt r1 => groups_of r1
  | RGroup j r1 => j :: groups_of r1
  end.

(** Match [a] lies wholly before match [b]. *)
Definition precedes (a b : rmatch) : Prop :=
  m_start a < m_start b /\ m_end a <= m_start b.

(** [hay] has [needle] as a contiguous part. *)
Definition occurs_in (needle hay : pystr) : Prop :=
  exists before after, hay = before ++ needle ++ after.

(** [r] matches [s] somewhere. *)
Definition matches_somewhere (rt : runtime) (icase : bool) (r : regex)
    (s : pystr) : Prop :=
  exists pos, pos <= length s
              /\ match_here rt icase r pos (skipn pos s) <> None.

(** What one signature contributes to [errors_found] for [text]. *)
Definition signature_hit (rt : runtime) (text : pystr) (sig : Signature)
    : list MatchedError :=
  match re_search rt true (sig_regex sig) text with
  | Some m =>
      match explanation_fn sig m with
      | Ok e => [{| pattern := sig_pattern sig; matched := m_text m;
                    explanation := e |}]
      | Raise _ => []
      end
  | None => []
  end.

(** The suggestions for given errors and frames, as section 4.4 of the
    specification lists them. *)
Definition suggestions_for (found : list MatchedError)
    (frames : list StackFrame) : list pystr :=
  (match found with [] => [NO_MATCH_SUGGESTION] | _ :: _ => [] end)
  ++ (match frames with f :: _ => [location_suggestion f] | [] => [] end)
  ++ GENERIC_SUGGESTIONS.

(** [json.loads] can enter an array or an object, where
    [detect_log_format] calls it and where [analyze_error] calls it. *)
Definition has_depth (rt : runtime) : bool :=
  (0 <? detect_depth rt) && (0 <? analyze_depth rt).

(** The analysis of the text [text] under the format [tag]. *)
Definition analysis_of (rt : runtime) (tag text : pystr) : Analysis :=
  let found := flat_map (signature_hit rt text) (ERROR_PATTERNS rt) in
  let frames := extract_stack_frames rt text in
  {| format_detected := tag;
     errors_found := found;
     suggestions := suggestions_for found frames;
     stack_frames := frames |}.

(** The signature for HTTP error responses, the last of the registry. *)
Definition HTTP_SIGNATURE (rt : runtime) : Signature :=
  last (ERROR_PATTERNS rt)
    {| sig_pattern := []; sig_regex := RLit []; explanation_fn := fun _ => Ok [] |}.

Definition HTTP_404 : pystr :=
  py "Not Found - The resource doesn't exist. Verify the URL.".

(** A text between double quotes. *)
Definition quoted (s : string) : pystr := [DQ] ++ py s ++ [DQ].
Arguments quoted s%_string.

Module Samples.

(** A JSON mapping whose only field is [detail], holding a
    JavaScript frame. *)
Definition detail_frame : pystr :=
  py "{" ++ quoted "detail" ++ py ": " ++ quoted "at f (a.js:1:2)" ++ py "}".

(** A JSON mapping whose [message] is a number. *)
Definition numeric_message : pystr :=
  py "{" ++ quoted "message" ++ py ": 1}".

(** The mapping of the specification's JSON scenario. *)
Definition boom : pystr :=
  py "{" ++ quoted "message" ++ py ": " ++ quoted "boom" ++ py ", "
  ++ quoted "error" ++ py ": " ++ quoted "ValueError: bad" ++ py "}".

(** A JSON array. *)
Definition array : pystr := py "[1, 2]".

Definition python_frame_line : pystr :=
  py "File " ++ quoted "x.py" ++ py ", line 3, in g".

(** A JavaScript frame, then the same Python frame twice. *)
Definition js_then_python : pystr :=
  py "at f (a.js:1:2)" ++ [NL] ++ python_frame_line ++ [NL]
  ++ python_frame_line.

Definition frame_x : StackFrame :=
  {| file := py "x.py"; line := py "3"; function := py "g" |}.
Definition frame_a : StackFrame :=
  {| file := py "a.js"; line := py "1"; function := py "f" |}.

Definition key_error : pystr := py "KeyError: 'user_id'".
Definition value_key_error : pystr := py "ValueError: KeyError: 'x'".
Definition no_error : pystr := py "all good".

(** A JSON string that holds the traceback header. *)
Definition json_traceback : pystr :=
  quoted "Traceback (most recent call last):".
(** The traceback header after a truncated JSON mapping. *)
Definition broken_json_traceback : pystr :=
  py "{" ++ quoted "a" ++ py ": Traceback (most recent call last):".
(** The traceback header and a JavaScript frame. *)
Definition traceback_and_js : pystr :=
  py "Traceback (most recent call last): at f (a.js:1:2)".
Definition js_only : pystr := py "at f (a.js:1:2)".

(** A JSON number, and a JSON string, followed by more text. *)
Definition number_then_frame : pystr := py "1 at f (a.js:1:2)".
Definition string_then_traceback : pystr :=
  quoted "x" ++ py " Traceback (most recent call last):".

(** [n] opening brackets, and an integer of [n] digits; the brackets
    followed by as many closing ones are a well-formed document. *)
Definition nested_arrays (n : nat) : pystr := repeat 91%N n.
Definition long_integer (n : nat) : pystr := repeat 49%N n.

Definition http_404 : pystr := py "HTTPError: 404".
Definition http_599 : pystr := py "HTTPError 599".

(** What [analyze_error] returns for [detail_frame] under [auto]. *)
Definition detail_analysis : Analysis :=
  {| format_detected := py "json";
     errors_found := [];
     suggestions := NO_MATCH_SUGGESTION :: GENERIC_SUGGESTIONS;
     stack_frames := [] |}.

(** The match of the HTTP signature in [http_599]. *)
Definition http_599_match : rmatch :=
  {| m_start := 0; m_end := 13; m_text := py "HTTPError 599";
     m_groups := [(1, py "599")] |}.

(** What [analyze_error] returns for [key_error] under [auto]. *)
Definition key_error_analysis : Analysis :=
  {| format_detected := py "plain";
     errors_found :=
       [{| pattern := py "KeyError: ['\" ++ [DQ] ++ py "]?(\w+)['\" ++ [DQ]
                      ++ py "]?";
           matched := py "KeyError: 'user_id'";
           explanation :=
             py "Dictionary key 'user_id' not found. Use .get() for safe access or check if key exists." |}];
     suggestions := GENERIC_SUGGESTIONS;
     stack_frames := [] |}.

(** What [analyze_error] returns for [python_frame_line] under [auto]. *)
Definition frame_line_analysis : Analysis :=
  {| format_detected := py "plain";
     errors_found := [];
     suggestions :=
       [ NO_MATCH_SUGGESTION;
         py "Error originated in x.py:3 in function g" ]
       ++ GENERIC_SUGGESTIONS;
     stack_frames := [frame_x] |}.

End Samples.

(** ** db-migrate: migration file names

    [generate_migration_filename] of
    [src/commands/py/db-migrate/__init__.py].  The reading of the clock,
    formatted by [strftime], and [str.lower] are taken as parameters. *)

(** [re.sub(pattern, repl, s)] for a pattern that matches no empty
    text: each match that [re.finditer] finds is replaced by [repl].
    [pos] is the offset of [s] in the whole text. *)
Fixpoint re_sub_from (repl : pystr) (ms : list rmatch) (pos : nat) (s : pystr)
    : pystr :=
  match ms with
  | [] => s
  | m :: ms' =>
      firstn (m_start m - pos) s ++ repl
      ++ re_sub_from repl ms' (m_end m) (skipn (m_end m - pos) s)
  end.

Definition re_sub (rt : runtime) (r : regex) (repl s : pystr) : pystr :=
  re_sub_from repl (re_finditer rt r s) 0 s.

Fixpoint lstrip (c : N) (s : pystr) : pystr :=
  match s with
  | x :: s' => if N.eqb x c then lstrip c s' else s
  | [] => []
  end.

Definition rstrip (c : N) (s : pystr) : pystr := rev (lstrip c (rev s)).

(** [s.strip(c)] for a single character [c]. *)
Definition strip (c : N) (s : pystr) : pystr := rstrip c (lstrip c s).

Definition LOWER_ALNUM : list N := py "abcdefghijklmnopqrstuvwxyz0123456789".

Definition UNDERSCORE : N := 95%N.

(** [[^a-z0-9]+] *)
Definition unsafe_run : regex := RPlus true (CNoneOf LOWER_ALNUM).

Section Migration.

Variable rt : runtime.
Variable str_lower : pystr -> pystr.

Definition sanitize (name : pystr) : pystr :=
  strip UNDERSCORE (re_sub rt unsafe_run [UNDERSCORE] (str_lower name)).

Definition generate_migration_filename (timestamp name : pystr) : pystr :=
  let safe_name := sanitize name in
  timestamp ++ py "_" ++ safe_name ++ py ".sql".

End Migration.

(** A direct reading of the substitution: every maximal run of
    characters for which [p] holds becomes one [repl]. *)
Fixpoint squash (p : N -> bool) (repl : pystr) (in_run : bool) (s : pystr)
    : pystr :=
  match s with
  | [] => []
  | c :: s' =>
      if p c then (if in_run then [] else repl) ++ squash p repl true s'
      else c :: squash p repl false s'
  end.

Fixpoint drop_run (p : N -> bool) (s : pystr) : pystr :=
  match s with
  | c :: s' => if p c then drop_run p s' else s
  | [] => []
  end.

(** Somewhere in [s] the character [u] stands twice in a row. *)
Fixpoint has_double (u : N) (s : pystr) : bool :=
  match s with
  | [] => false
  | x :: s' =>
      (N.eqb x u && match s' with y :: _ => N.eqb y u | [] => false end)
      || has_double u s'
  end.

(** [r] without its capturing groups. *)
Fixpoint erase_groups (r : regex) : regex :=
  match r with
  | RChar _ | RSet _ | RStar _ _ => r
  | RCat r1 r2 => RCat (erase_groups r1) (erase_groups r2)
  | RAlt r1 r2 => RAlt (erase_groups r1) (erase_groups r2)
  | ROpt r1 => ROpt (erase_groups r1)
  | RGroup _ r1 => erase_groups r1
  end.

(** ** Vocabulary of the further statements *)





(** The exceptions of the interpreter's limits. *)
Definition is_limit_error (e : exn) : Prop :=
  (exists msg, e = RecursionError msg) \/ (exists msg, e = ValueError msg).

(** [r] can match the empty text. *)
Fixpoint nullable (r : regex) : bool :=
  match r with
  | RChar _ | RSet _ => false
  | RCat r1 r2 => nullable r1 && nullable r2
  | RAlt r1 r2 => nullable r1 || nullable r2
  | ROpt _ | RStar _ _ => true
  | RGroup _ r1 => nullable r1
  end.

(** The signature matches somewhere in [text]. *)
Definition is_hit (rt : runtime) (text : pystr) (sig : Signature) : bool :=
  match re_search rt true (sig_regex sig) text with
  | Some _ => true
  | None => false
  end.


(** No text occurs twice in [l]. *)
Fixpoint distinctb (l : list pystr) : bool :=
  match l with
  | [] => true
  | x :: l' => negb (existsb (pystr_eqb x) l') && distinctb l'
  end.

Module MoreSamples.

(** An HTTP error line with a status and, later, a longer number. *)
Definition http_url : pystr := py "HTTPError: 404 for url /items/12345".

(** The match of the HTTP signature in [http_url]. *)
Definition http_url_match : rmatch :=
  {| m_start := 0; m_end := 35;
     m_text := py "HTTPError: 404 for url /items/12345";
     m_groups := [(1, py "345")] |}.

(** The analysis of [Samples.key_error] under the hint [json]. *)
Definition key_error_as_json : Analysis :=
  {| format_detected := py "json";
     errors_found := errors_found Samples.key_error_analysis;
     suggestions := GENERIC_SUGGESTIONS;
     stack_frames := [] |}.

(** [Samples.key_error] in upper case. *)
Definition upper_key_error : pystr := py "KEYERROR: 'USER_ID'".

(** The mapping that [Samples.detail_frame] parses to. *)
Definition detail_mapping : list (pystr * json) :=
  [(py "detail", JStr (py "at f (a.js:1:2)"))].

End MoreSamples.

(** [x] and [y] are the same character, or the upper-case and
    lower-case forms of one ASCII letter. *)
Definition same_letter (x y : N) : Prop :=
  x = y
  \/ (is_ascii_upper x = true /\ y = (x + 32)%N)
  \/ (is_ascii_upper y = true /\ x = (y + 32)%N).

(** Two texts that differ at most in the case of ASCII letters. *)
Definition same_up_to_case (s t : pystr) : Prop := Forall2 same_letter s t.

(** The class holds an ASCII letter only together with its other
    case. *)
Definition case_free_cset (cs : cset) : bool :=
  match cs with
  | CAny | CWord | CDigit => true
  | COneOf l | CNoneOf l => forallb (fun c => negb (is_ascii_alpha c)) l
  end.

Fixpoint case_free (r : regex) : bool :=
  match r with
  | RChar _ => true
  | RSet cs | RStar _ cs => case_free_cset cs
  | RCat r1 r2 | RAlt r1 r2 => case_free r1 && case_free r2
  | ROpt r1 | RGroup _ r1 => case_free r1
  end.

(** * Properties *)

(** ** Text *)

Lemma pystr_eqb_eq (a b : pystr) : pystr_eqb a b = true <-> a = b.
Proof.
  revert b; induction a as [|x a IH]; intros [|y b]; simpl;
    try (split; [discriminate | congruence]); try tauto.
  rewrite andb_true_iff, N.eqb_eq, IH.
  split; [intros [-> ->]; reflexivity | intros E; inversion E; auto].
Qed.

Lemma pystr_eqb_refl (a : pystr) : pystr_eqb a a = true.
Proof. apply pystr_eqb_eq; reflexivity. Qed.

Lemma startswith_spec (p s : pystr) :
  startswith p s = true <-> exists rest, s = p ++ rest.
Proof.
  revert s; induction p as [|c p IH]; intros s; simpl.
  - split; [intros _; exists s; reflexivity | reflexivity].
  - destruct s as [|d s].
    + split; [discriminate | intros [rest E]; discriminate].
    + rewrite andb_true_iff, N.eqb_eq, IH. split.
      * intros [-> [rest ->]]. exists rest; reflexivity.
      * intros [rest E]. inversion E; subst. split; [reflexivity | eauto].
Qed.

Lemma contains_spec (needle hay : pystr) :
  contains needle hay = true <-> occurs_in needle hay.
Proof.
  unfold occurs_in. induction hay as [|c hay IH].
  - simpl. rewrite orb_false_r, startswith_spec. split.
    + intros [rest E]. exists [], rest. exact E.
    + intros [before [after E]]. destruct before as [|b before].
      * exists after. exact E.
      * discriminate.
  - change (contains needle (c :: hay))
      with (startswith needle (c :: hay) || contains needle hay).
    rewrite orb_true_iff, startswith_spec, IH. split.
    + intros [[rest E] | [before [after E]]].
      * exists [], rest. exact E.
      * exists (c :: before), after. rewrite E. reflexivity.
    + intros [[|b before] [after E]].
      * left. exists after. exact E.
      * right. inversion E; subst. exists before, after. reflexivity.
Qed.

Lemma fold_left_snoc {A B : Type} (f : A -> B) (l : list A) (init : list B) :
  fold_left (fun acc x => acc ++ [f x]) l init = init ++ map f l.
Proof.
  revert init; induction l as [|x l IH]; intros init; simpl.
  - rewrite app_nil_r; reflexivity.
  - rewrite IH, <- app_assoc; reflexivity.
Qed.

(** ** The matcher *)

Section MatcherFacts.

Variable rt : runtime.
Variable icase : bool.
Variable A : Type.

(** Whatever [star] returns, its continuation returned, on a text that
    is no longer than the one it started from. *)
Lemma star_sound (cs : cset) (greedy : bool) (s : pystr)
    (k : pystr -> option A) (a : A) :
  star rt cs greedy s k = Some a ->
  exists s1, k s1 = Some a /\ length s1 <= length s.
Proof.
  induction s as [|x s IH]; simpl; intros H.
  - exists []; auto.
  - destruct (in_cset rt cs x).
    + destruct greedy.
      * destruct (star rt cs true s k) eqn:E.
        -- inversion H; subst. destruct (IH eq_refl) as [s1 [K L]].
           exists s1; split; [exact K | lia].
        -- exists (x :: s); auto.
      * destruct (k (x :: s)) eqn:E.
        -- inversion H; subst. exists (x :: s); auto.
        -- destruct (IH H) as [s1 [K L]]. exists s1; split; [exact K | lia].
    + exists (x :: s); auto.
Qed.

(** Whatever the matcher returns, its continuation returned; the text
    it was given is no longer, and it holds every group that was
    already set or that lies on every path through the expression. *)
Lemma rmatch_at_sound (r : regex) :
  forall (s : pystr) (gs : list (nat * pystr))
         (k : pystr -> list (nat * pystr) -> option A) (a : A),
  rmatch_at rt icase r s gs k = Some a ->
  exists s1 g1,
    k s1 g1 = Some a /\ length s1 <= length s
    /\ forall i, mandatory r i = true \/ lookup_group i gs <> None ->
                 lookup_group i g1 <> None.
Proof.
  induction r as [c | cs | r1 IH1 r2 IH2 | r1 IH1 r2 IH2 | r1 IH1
                 | greedy cs | j r1 IH1]; intros s gs k a H; simpl in H.
  - destruct s as [|x s]; [discriminate|].
    destruct (char_matches rt icase c x); [|discriminate].
    exists s, gs. repeat split; [exact H | simpl; lia |].
    intros i [M | G]; [discriminate | exact G].
  - destruct s as [|x s]; [discriminate|].
    destruct (in_cset rt cs x); [|discriminate].
    exists s, gs. repeat split; [exact H | simpl; lia |].
    intros i [M | G]; [discriminate | exact G].
  - destruct (IH1 _ _ _ _ H) as [s1 [g1 [K1 [L1 G1]]]].
    destruct (IH2 _ _ _ _ K1) as [s2 [g2 [K2 [L2 G2]]]].
    exists s2, g2. repeat split; [exact K2 | lia |].
    intros i [M | G].
    + simpl in M. apply orb_true_iff in M. destruct M as [M | M].
      * apply G2. right. apply G1. left; exact M.
      * apply G2. left; exact M.
    + apply G2. right. apply G1. right; exact G.
  - destruct (rmatch_at rt icase r1 s gs k) eqn:E.
    + inversion H; subst.
      destruct (IH1 _ _ _ _ E) as [s1 [g1 [K1 [L1 G1]]]].
      exists s1, g1. repeat split; auto.
      intros i [M | G]; apply G1; [left | right; exact G].
      simpl in M. apply andb_true_iff in M. tauto.
    + destruct (IH2 _ _ _ _ H) as [s1 [g1 [K1 [L1 G1]]]].
      exists s1, g1. repeat split; auto.
      intros i [M | G]; apply G1; [left | right; exact G].
      simpl in M. apply andb_true_iff in M. tauto.
  - destruct (rmatch_at rt icase r1 s gs k) eqn:E.
    + inversion H; subst.
      destruct (IH1 _ _ _ _ E) as [s1 [g1 [K1 [L1 G1]]]].
      exists s1, g1. repeat split; auto.
      intros i [M | G]; [discriminate | apply G1; right; exact G].
    + exists s, gs. repeat split; auto.
      intros i [M | G]; [discriminate | exact G].
  - destruct (star_sound _ _ _ _ H) as [s1 [K L]].
    exists s1, gs. repeat split; auto.
    intros i [M | G]; [discriminate | exact G].
  - destruct (IH1 _ _ _ _ H) as [s1 [g1 [K1 [L1 G1]]]].
    eexists s1, (_ :: g1). repeat split; [exact K1 | exact L1 |].
    intros i [M | G]; simpl.
    + destruct (Nat.eqb i j) eqn:E; [discriminate|].
      apply G1. left. simpl in M. rewrite E in M. exact M.
    + destruct (Nat.eqb i j); [discriminate|]. apply G1. right; exact G.
Qed.

(** What follows the first component of a concatenation was matched
    from some point on. *)
Lemma rmatch_at_cat (r1 r2 : regex) (s : pystr) (gs : list (nat * pystr))
    (k : pystr -> list (nat * pystr) -> option A) (a : A) :
  rmatch_at rt icase (RCat r1 r2) s gs k = Some a ->
  exists s1 g1, rmatch_at rt icase r2 s1 g1 k = Some a.
Proof.
  intros H. simpl in H.
  destruct (rmatch_at_sound _ _ _ _ H) as [s1 [g1 [K _]]]. eauto.
Qed.

End MatcherFacts.

Section SearchFacts.

Variable rt : runtime.

(** A match found at the head of [s]: where it lies, what it holds. *)
Lemma match_here_inv (icase : bool) (r : regex) (pos : nat) (s : pystr)
    (m : rmatch) :
  match_here rt icase r pos s = Some m ->
  m_start m = pos /\ m_start m <= m_end m
  /\ m_end m - m_start m <= length s
  /\ m_text m = firstn (m_end m - m_start m) s
  /\ forall i, mandatory r i = true -> lookup_group i (m_groups m) <> None.
Proof.
  unfold match_here. intros H.
  destruct (rmatch_at_sound _ _ _ _ _ _ H) as [s1 [g1 [K [L G]]]].
  inversion K; subst; simpl.
  replace (pos + (length s - length s1) - pos) with (length s - length s1)
    by lia.
  repeat split; try lia. intros i M. apply G. left; exact M.
Qed.

(** [search_from] returns the match at the first offset that has one. *)
Lemma search_from_inv (icase : bool) (r : regex) (s : pystr) :
  forall (pos : nat) (m : rmatch),
  search_from rt icase r pos s = Some m ->
  exists n, n <= length s
    /\ match_here rt icase r (pos + n) (skipn n s) = Some m
    /\ forall j, j < n -> match_here rt icase r (pos + j) (skipn j s) = None.
Proof.
  induction s as [|x s IH]; intros pos m H; simpl in H.
  - destruct (match_here rt icase r pos []) eqn:E; [|discriminate].
    inversion H; subst. exists 0. rewrite Nat.add_0_r. simpl.
    repeat split; [lia | exact E | intros j Hj; lia].
  - destruct (match_here rt icase r pos (x :: s)) eqn:E.
    + inversion H; subst. exists 0. rewrite Nat.add_0_r. simpl.
      repeat split; [lia | exact E | intros j Hj; lia].
    + destruct (IH _ _ H) as [n [L [M F]]].
      exists (S n). replace (pos + S n) with (S pos + n) by lia. simpl.
      repeat split; [lia | exact M |].
      intros [|j] Hj.
      * rewrite Nat.add_0_r. exact E.
      * replace (pos + S j) with (S pos + j) by lia. simpl.
        apply F. lia.
Qed.

Lemma search_from_none (icase : bool) (r : regex) (s : pystr) :
  forall pos, search_from rt icase r pos s = None ->
  forall n, n <= length s ->
            match_here rt icase r (pos + n) (skipn n s) = None.
Proof.
  induction s as [|x s IH]; intros pos H n L; simpl in H.
  - destruct (match_here rt icase r pos []) eqn:E; [discriminate|].
    simpl in L. replace n with 0 by lia. rewrite Nat.add_0_r. exact E.
  - destruct (match_here rt icase r pos (x :: s)) eqn:E; [discriminate|].
    destruct n as [|n].
    + rewrite Nat.add_0_r. exact E.
    + replace (pos + S n) with (S pos + n) by lia.
      change (skipn (S n) (x :: s)) with (skipn n s).
      apply IH; [exact H | simpl in L; lia].
Qed.

(** A continuation that fails wherever another one fails makes the
    matcher fail wherever that one makes it fail. *)
Lemma rmatch_at_none_mono (icase : bool) (A B : Type) (r : regex) :
  forall (k1 : pystr -> list (nat * pystr) -> option A)
         (k2 : pystr -> list (nat * pystr) -> option B) s gs,
  (forall a b, k1 a b = None -> k2 a b = None) ->
  rmatch_at rt icase r s gs k1 = None ->
  rmatch_at rt icase r s gs k2 = None.
Proof.
  induction r as [c | cs | r1 IH1 r2 IH2 | r1 IH1 r2 IH2 | r1 IH1
                 | greedy cs | j r1 IH1]; intros k1 k2 s gs HK H;
    simpl in *.
  - destruct s as [|x s]; auto. destruct (char_matches rt icase c x); auto.
  - destruct s as [|x s]; auto. destruct (in_cset rt cs x); auto.
  - eapply IH1; [|exact H]. intros a b. apply IH2. exact HK.
  - destruct (rmatch_at rt icase r1 s gs k1) eqn:E1; [discriminate|].
    rewrite (IH1 _ _ _ _ HK E1). eapply IH2; eauto.
  - destruct (rmatch_at rt icase r1 s gs k1) eqn:E1; [discriminate|].
    rewrite (IH1 _ _ _ _ HK E1). auto.
  - revert H. induction s as [|x s IHs]; simpl; auto.
    destruct (in_cset rt cs x); auto.
    destruct greedy.
    + destruct (star rt cs true s (fun s1 => k1 s1 gs)) eqn:E1;
        [discriminate|].
      intros H. rewrite (IHs eq_refl). auto.
    + destruct (k1 (x :: s) gs) eqn:E1; [discriminate|].
      intros H. rewrite (HK _ _ E1). auto.
  - eapply IH1; [|exact H]. intros a b. apply HK.
Qed.

(** Whether a match starts at the head of a text does not depend on
    the offset the text is said to lie at. *)
Lemma match_here_offset (icase : bool) (r : regex) (p q : nat) (s : pystr) :
  match_here rt icase r p s = None -> match_here rt icase r q s = None.
Proof.
  unfold match_here. apply rmatch_at_none_mono. intros a b; discriminate.
Qed.

Lemma re_search_somewhere (icase : bool) (r : regex) (s : pystr) :
  re_search rt icase r s <> None <-> matches_somewhere rt icase r s.
Proof.
  unfold re_search, matches_somewhere. split.
  - destruct (search_from rt icase r 0 s) as [m|] eqn:E; [|congruence].
    intros _. destruct (search_from_inv _ _ _ _ E) as [n [L [M _]]].
    exists n. split; [exact L|]. simpl in M. rewrite M. discriminate.
  - intros [pos [L M]] E. apply M.
    apply match_here_offset with (p := 0 + pos).
    apply search_from_none; assumption.
Qed.

(** [re.search] returns the leftmost match: it starts at an offset of
    the text, and no match starts before it. *)
Lemma re_search_leftmost (icase : bool) (r : regex) (s : pystr) (m : rmatch) :
  re_search rt icase r s = Some m ->
  m_start m <= length s
  /\ match_here rt icase r (m_start m) (skipn (m_start m) s) = Some m
  /\ forall j, j < m_start m ->
               match_here rt icase r j (skipn j s) = None.
Proof.
  intros H. destruct (search_from_inv _ _ _ _ H) as [n [L [M F]]].
  simpl in M, F. destruct (match_here_inv _ _ _ _ M) as [S0 _].
  rewrite S0. auto.
Qed.

(** [finditer_from] lists matches, each found at the head of a part of
    the text, in the order of their places, none overlapping the next. *)
Lemma finditer_from_bound (r : regex) (s : pystr) :
  forall pos skip,
  Forall (fun m => pos + skip <= m_start m
                   /\ exists s', match_here rt false r (m_start m) s' = Some m)
    (finditer_from rt r pos skip s).
Proof.
  induction s as [|x s IH]; intros pos skip.
  - destruct skip as [|skip]; simpl; [|constructor].
    destruct (match_here rt false r pos []) eqn:E; constructor.
    + destruct (match_here_inv _ _ _ _ E) as [S0 _]. rewrite S0.
      split; [lia | exists []; exact E].
    + constructor.
  - destruct skip as [|skip]; simpl.
    + destruct (match_here rt false r pos (x :: s)) eqn:E.
      * constructor.
        -- destruct (match_here_inv _ _ _ _ E) as [S0 _]. rewrite S0.
           split; [lia | exists (x :: s); exact E].
        -- eapply Forall_impl; [|apply IH].
           intros m [B W]. split; [lia | exact W].
      * eapply Forall_impl; [|apply IH].
        intros m [B W]. split; [lia | exact W].
    + eapply Forall_impl; [|apply IH].
      intros m [B W]. split; [lia | exact W].
Qed.

Lemma finditer_from_sorted (r : regex) (s : pystr) :
  forall pos skip,
  StronglySorted precedes (finditer_from rt r pos skip s).
Proof.
  induction s as [|x s IH]; intros pos skip.
  - destruct skip as [|skip]; simpl; [|constructor].
    destruct (match_here rt false r pos []); repeat constructor.
  - destruct skip as [|skip]; simpl.
    + destruct (match_here rt false r pos (x :: s)) eqn:E.
      * constructor; [apply IH|].
        destruct (match_here_inv _ _ _ _ E) as [S0 [S1 _]].
        eapply Forall_impl; [|apply finditer_from_bound].
        intros b [B _]. unfold precedes. lia.
      * apply IH.
    + apply IH.
Qed.

Lemma re_finditer_sorted (r : regex) (s : pystr) :
  StronglySorted precedes (re_finditer rt r s).
Proof. apply finditer_from_sorted. Qed.

(** Every group that lies on every path through [r] took part in
    each match that [re.finditer] and [re.search] return. *)
Lemma re_finditer_groups (r : regex) (s : pystr) (m : rmatch) (i : nat) :
  In m (re_finditer rt r s) -> mandatory r i = true ->
  lookup_group i (m_groups m) <> None.
Proof.
  intros I M. unfold re_finditer in I.
  pose proof (finditer_from_bound r s 0 0) as F.
  rewrite Forall_forall in F. destruct (F _ I) as [_ [s' W]].
  destruct (match_here_inv _ _ _ _ W) as [_ [_ [_ [_ G]]]]. auto.
Qed.

Lemma re_search_groups (icase : bool) (r : regex) (s : pystr) (m : rmatch)
    (i : nat) :
  re_search rt icase r s = Some m -> mandatory r i = true ->
  lookup_group i (m_groups m) <> None.
Proof.
  intros H M. destruct (re_search_leftmost _ _ _ H) as [_ [W _]].
  destruct (match_here_inv _ _ _ _ W) as [_ [_ [_ [_ G]]]]. auto.
Qed.

End SearchFacts.

(** ** The JSON scanner *)

Lemma skip_ws_length (s : pystr) : length (skip_ws s) <= length s.
Proof.
  induction s as [|c s IH]; simpl; [lia|].
  destruct (is_ws c); simpl; lia.
Qed.

Lemma span_digits_length (s : pystr) :
  length (snd (span_digits s)) <= length s.
Proof.
  induction s as [|c s IH]; simpl; [lia|].
  destruct (is_ascii_digit c); simpl; [|lia].
  destruct (span_digits s); simpl in *; lia.
Qed.

Lemma span_digits_taken (s : pystr) :
  length (fst (span_digits s)) <= length s.
Proof.
  induction s as [|c s IH]; simpl; [lia|].
  destruct (is_ascii_digit c); simpl; [|lia].
  destruct (span_digits s); simpl in *; lia.
Qed.

Lemma span_digits_rest (s ds rest : pystr) :
  span_digits s = (ds, rest) -> length rest <= length s.
Proof.
  intros E. pose proof (span_digits_length s) as L.
  rewrite E in L. exact L.
Qed.

(** A string literal takes at least its closing quote. *)
Lemma scanstring_consumes :
  forall (n : nat) (s acc v rest : pystr),
  length s <= n ->
  scanstring s acc = Some (v, rest) -> length rest < length s.
Proof.
  induction n as [|n IH]; intros s acc v rest L H.
  - destruct s; [discriminate | simpl in L; lia].
  - destruct s as [|c s]; [discriminate|].
    simpl in L. cbn [scanstring] in H.
    destruct (N.eqb c DQ).
    { inversion H; subst. simpl; lia. }
    destruct (N.eqb c 92).
    + destruct s as [|e s]; [discriminate|].
      destruct (N.eqb e 117).
      * destruct s as [|h1 [|h2 [|h3 [|h4 t]]]]; try discriminate.
        destruct (hex4 h1 h2 h3 h4); [|discriminate].
        assert (T : forall u, scanstring t (u :: acc) = Some (v, rest) ->
                              length rest < length (c :: e :: h1 :: h2 :: h3 :: h4 :: t)).
        { intros u K. apply IH in K; simpl in *; lia. }
        destruct t as [|b [|w [|g1 [|g2 [|g3 [|g4 t']]]]]]; eauto.
        destruct (is_high_surrogate n0 && N.eqb b 92 && N.eqb w 117); eauto.
        destruct (hex4 g1 g2 g3 g4); [|discriminate].
        destruct (is_low_surrogate n1); eauto.
        apply IH in H; simpl in *; lia.
      * destruct (simple_escape e); [|discriminate].
        apply IH in H; simpl in *; lia.
    + destruct (c <? 32)%N; [discriminate|].
      apply IH in H; simpl in *; lia.
Qed.

Lemma scanstring_rest (s acc v rest : pystr) :
  scanstring s acc = Some (v, rest) -> length rest < length s.
Proof. apply scanstring_consumes with (n := length s). lia. Qed.

Lemma int_part_rest (s ip rest : pystr) :
  int_part s = Some (ip, rest) -> length rest < length s.
Proof.
  destruct s as [|c s]; [discriminate|]. unfold int_part.
  destruct (N.eqb c 48).
  - intros H; inversion H; subst. simpl; lia.
  - destruct (is_ascii_digit c) eqn:D; [|discriminate].
    simpl. rewrite D. destruct (span_digits s) as [ds r] eqn:E.
    intros H; inversion H; subst.
    apply span_digits_rest in E. simpl; lia.
Qed.

Lemma frac_part_rest (s fp rest : pystr) :
  frac_part s = (fp, rest) -> length rest <= length s.
Proof.
  unfold frac_part. destruct s as [|p [|d s]];
    try (intros H; inversion H; subst; simpl; lia).
  destruct (N.eqb p 46 && is_ascii_digit d);
    [|intros H; inversion H; subst; simpl; lia].
  destruct (span_digits (d :: s)) as [ds r] eqn:E.
  intros H; inversion H; subst. apply span_digits_rest in E. simpl in *; lia.
Qed.

Lemma exp_part_rest (s ep rest : pystr) :
  exp_part s = (ep, rest) -> length rest <= length s.
Proof.
  unfold exp_part. destruct s as [|e s1];
    [intros H; inversion H; subst; simpl; lia|].
  destruct (N.eqb e 101 || N.eqb e 69);
    [|intros H; inversion H; subst; simpl; lia].
  destruct s1 as [|g s2]; [intros H; inversion H; subst; simpl; lia|].
  destruct (N.eqb g 43 || N.eqb g 45).
  - destruct s2 as [|d s3]; [intros H; inversion H; subst; simpl; lia|].
    destruct (is_ascii_digit d);
      [|intros H; inversion H; subst; simpl; lia].
    destruct (span_digits (d :: s3)) as [ds r] eqn:E.
    intros H; inversion H; subst. apply span_digits_rest in E.
    simpl in *; lia.
  - destruct (is_ascii_digit g);
      [|intros H; inversion H; subst; simpl; lia].
    destruct (span_digits (g :: s2)) as [ds r] eqn:E.
    intros H; inversion H; subst. apply span_digits_rest in E.
    simpl in *; lia.
Qed.

Lemma match_number_rest (max_digits : nat) (s : pystr) (v : json)
    (rest : pystr) :
  match_number max_digits s = Parsed v rest -> length rest < length s.
Proof.
  unfold match_number.
  assert (S0 : forall sign s0,
    match int_part s0 with
    | Some (ip, s1) =>
        let (fp, s2) := frac_part s1 in
        let (ep, s3) := exp_part s2 in
        match fp, ep with
        | [], [] =>
            if int_too_long max_digits ip
            then Fails (INT_LIMIT_ERROR max_digits (length ip))
            else
              let n := digits_value ip in
              Parsed (JInt match sign with [] => n | _ :: _ => (- n)%Z end) s3
        | _, _ => Parsed (JFloat (sign ++ ip ++ fp ++ ep)) s3
        end
    | None => Invalid
    end = Parsed v rest -> length rest < length s0).
  { intros sign s0. destruct (int_part s0) as [[ip s1]|] eqn:E1;
      [|discriminate].
    apply int_part_rest in E1.
    destruct (frac_part s1) as [fp s2] eqn:E2. apply frac_part_rest in E2.
    destruct (exp_part s2) as [ep s3] eqn:E3. apply exp_part_rest in E3.
    destruct fp, ep; try destruct (int_too_long max_digits ip);
      intros H; inversion H; subst; lia. }
  destruct s as [|c s']; [discriminate|].
  destruct (N.eqb c 45); intros H.
  - pose proof (S0 [c] s' H). simpl; lia.
  - pose proof (S0 [] (c :: s') H). simpl in *; lia.
Qed.

Lemma match_number_fuel (max_digits : nat) (s : pystr) :
  match_number max_digits s <> OutOfFuel.
Proof.
  unfold match_number.
  destruct (match s with
            | [] => ([], s)
            | c :: s' => if N.eqb c 45 then ([c], s') else ([], s)
            end) as [sign s0].
  destruct (int_part s0) as [[ip s1]|]; [|discriminate].
  destruct (frac_part s1) as [fp s2]. destruct (exp_part s2) as [ep s3].
  destruct fp, ep; try destruct (int_too_long max_digits ip); discriminate.
Qed.

(** The only exception of a number is that of the digit limit. *)
Lemma match_number_fails (max_digits : nat) (s : pystr) (e : exn) :
  match_number max_digits s = Fails e ->
  exists digits,
    e = INT_LIMIT_ERROR max_digits digits
    /\ 640 < digits /\ 0 < max_digits < digits /\ digits <= length s.
Proof.
  unfold match_number.
  assert (S0 : forall sign s0,
    match int_part s0 with
    | Some (ip, s1) =>
        let (fp, s2) := frac_part s1 in
        let (ep, s3) := exp_part s2 in
        match fp, ep with
        | [], [] =>
            if int_too_long max_digits ip
            then Fails (INT_LIMIT_ERROR max_digits (length ip))
            else
              let n := digits_value ip in
              Parsed (JInt match sign with [] => n | _ :: _ => (- n)%Z end) s3
        | _, _ => Parsed (JFloat (sign ++ ip ++ fp ++ ep)) s3
        end
    | None => Invalid
    end = Fails e ->
    exists digits,
      e = INT_LIMIT_ERROR max_digits digits
      /\ 640 < digits /\ 0 < max_digits < digits /\ digits <= length s0).
  { intros sign s0. destruct (int_part s0) as [[ip s1]|] eqn:E1;
      [|discriminate].
    assert (L : length ip <= length s0).
    { revert E1. destruct s0 as [|c s0]; [discriminate|]. unfold int_part.
      destruct (N.eqb c 48).
      - intros H; inversion H; subst. simpl; lia.
      - destruct (is_ascii_digit c); [|discriminate].
        intros H. pose proof (span_digits_taken (c :: s0)) as T.
        assert (K : span_digits (c :: s0) = (ip, s1)) by congruence.
        rewrite K in T. exact T. }
    destruct (frac_part s1) as [fp s2]. destruct (exp_part s2) as [ep s3].
    destruct fp, ep; try discriminate.
    destruct (int_too_long max_digits ip) eqn:T; [|discriminate].
    intros H; inversion H; subst. exists (length ip).
    unfold int_too_long in T.
    apply andb_prop in T. destruct T as [T T3].
    apply andb_prop in T. destruct T as [T1 T2].
    apply Nat.ltb_lt in T1, T2, T3. repeat split; lia. }
  destruct s as [|c s']; [discriminate|].
  destruct (N.eqb c 45); intros H.
  - destruct (S0 [c] s' H) as [d [E [A [B C]]]]. exists d.
    repeat split; try tauto; simpl; lia.
  - exact (S0 [] (c :: s') H).
Qed.

(** Every value, and every run of array elements or object members up
    to the closing bracket, takes at least one character. *)
Lemma scan_consumes (max_digits fuel : nat) :
  (forall depth s v rest,
     scan_once max_digits fuel depth s = Parsed v rest ->
     length rest < length s)
  /\ (forall depth s acc v rest,
        array_items max_digits fuel depth s acc = Parsed v rest ->
        length rest < length s)
  /\ (forall depth s acc v rest,
        object_items max_digits fuel depth s acc = Parsed v rest ->
        length rest < length s).
Proof.
  induction fuel as [|f [IHs [IHa IHo]]].
  - repeat split; intros; discriminate.
  - repeat split.
    + intros depth s v rest H. cbn [scan_once] in H.
      destruct s as [|c s']; [discriminate|].
      destruct (N.eqb c DQ).
      { destruct (scanstring s' []) as [[v0 r0]|] eqn:E; [|discriminate].
        inversion H; subst. apply scanstring_rest in E. simpl; lia. }
      destruct (N.eqb c 123).
      { destruct depth as [|depth]; [discriminate|].
        pose proof (skip_ws_length s') as W.
        destruct (skip_ws s') as [|c1 r]; [discriminate|].
        destruct (N.eqb c1 125).
        - inversion H; subst. simpl in *; lia.
        - apply IHo in H. simpl in *; lia. }
      destruct (N.eqb c 91).
      { destruct depth as [|depth]; [discriminate|].
        pose proof (skip_ws_length s') as W.
        destruct (skip_ws s') as [|c1 r]; [discriminate|].
        destruct (N.eqb c1 93).
        - inversion H; subst. simpl in *; lia.
        - apply IHa in H. simpl in *; lia. }
      repeat match type of H with
      | (if ?b then _ else _) = _ =>
          destruct b;
          [match type of H with
           | Parsed _ ?r = _ =>
               assert (R : rest = r) by congruence;
               rewrite R, length_skipn; simpl; lia
           end|]
      end.
      apply match_number_rest in H. exact H.
    + intros depth s acc v rest H. cbn [array_items] in H.
      destruct (scan_once max_digits f depth s) as [v0 r0| | |] eqn:E;
        try discriminate.
      apply IHs in E. pose proof (skip_ws_length r0) as W.
      destruct (skip_ws r0) as [|c r2]; [discriminate|].
      destruct (N.eqb c 93).
      * inversion H; subst. simpl in *; lia.
      * destruct (N.eqb c 44); [|discriminate].
        apply IHa in H. pose proof (skip_ws_length r2). simpl in *; lia.
    + intros depth s acc v rest H. cbn [object_items] in H.
      destruct s as [|q s']; [discriminate|].
      destruct (N.eqb q DQ); [|discriminate].
      destruct (scanstring s' []) as [[key r0]|] eqn:E; [|discriminate].
      apply scanstring_rest in E. pose proof (skip_ws_length r0) as W0.
      destruct (skip_ws r0) as [|c1 r1]; [discriminate|].
      destruct (N.eqb c1 58); [|discriminate].
      pose proof (skip_ws_length r1) as W1.
      destruct (scan_once max_digits f depth (skip_ws r1))
        as [v0 r2| | |] eqn:E2; try discriminate.
      apply IHs in E2. pose proof (skip_ws_length r2) as W2.
      destruct (skip_ws r2) as [|c2 r3]; [discriminate|].
      destruct (N.eqb c2 125).
      * inversion H; subst. simpl in *; lia.
      * destruct (N.eqb c2 44); [|discriminate].
        apply IHo in H. pose proof (skip_ws_length r3). simpl in *; lia.
Qed.

(** With fuel beyond twice the length of the text the scanner never
    runs out. *)
Lemma scan_fuel_bound (max_digits fuel : nat) :
  (forall depth s, 2 * length s < fuel ->
                   scan_once max_digits fuel depth s <> OutOfFuel)
  /\ (forall depth s acc, 2 * length s + 1 < fuel ->
                          array_items max_digits fuel depth s acc <> OutOfFuel)
  /\ (forall depth s acc, 2 * length s + 1 < fuel ->
                          object_items max_digits fuel depth s acc <> OutOfFuel).
Proof.
  induction fuel as [|f [IHs [IHa IHo]]].
  - repeat split; intros; lia.
  - repeat split.
    + intros depth s L. cbn [scan_once].
      destruct s as [|c s']; [discriminate|].
      destruct (N.eqb c DQ).
      { destruct (scanstring s' []) as [[v0 r0]|]; discriminate. }
      destruct (N.eqb c 123).
      { destruct depth as [|depth]; [discriminate|].
        pose proof (skip_ws_length s') as W.
        destruct (skip_ws s') as [|c1 r]; [discriminate|].
        destruct (N.eqb c1 125); [discriminate|].
        apply IHo. simpl in *; lia. }
      destruct (N.eqb c 91).
      { destruct depth as [|depth]; [discriminate|].
        pose proof (skip_ws_length s') as W.
        destruct (skip_ws s') as [|c1 r]; [discriminate|].
        destruct (N.eqb c1 93); [discriminate|].
        apply IHa. simpl in *; lia. }
      repeat match goal with
      | |- (if ?b then _ else _) <> _ => destruct b; [discriminate|]
      end.
      apply match_number_fuel.
    + intros depth s acc L. cbn [array_items].
      destruct (scan_once max_digits f depth s) as [v0 r0| | |] eqn:E;
        try discriminate.
      * apply (proj1 (scan_consumes max_digits f)) in E.
        pose proof (skip_ws_length r0) as W.
        destruct (skip_ws r0) as [|c r2]; [discriminate|].
        destruct (N.eqb c 93); [discriminate|].
        destruct (N.eqb c 44); [|discriminate].
        apply IHa. pose proof (skip_ws_length r2). simpl in *; lia.
      * exfalso. revert E. apply IHs. lia.
    + intros depth s acc L. cbn [object_items].
      destruct s as [|q s']; [discriminate|].
      destruct (N.eqb q DQ); [|discriminate].
      destruct (scanstring s' []) as [[key r0]|] eqn:E; [|discriminate].
      apply scanstring_rest in E. pose proof (skip_ws_length r0) as W0.
      destruct (skip_ws r0) as [|c1 r1]; [discriminate|].
      destruct (N.eqb c1 58); [|discriminate].
      pose proof (skip_ws_length r1) as W1.
      destruct (scan_once max_digits f depth (skip_ws r1))
        as [v0 r2| | |] eqn:E2; try discriminate.
      * apply (proj1 (scan_consumes max_digits f)) in E2.
        pose proof (skip_ws_length r2) as W2.
        destruct (skip_ws r2) as [|c2 r3]; [discriminate|].
        destruct (N.eqb c2 125); [discriminate|].
        destruct (N.eqb c2 44); [|discriminate].
        apply IHo. pose proof (skip_ws_length r3). simpl in *; lia.
      * exfalso. revert E2. apply IHs. simpl in *; lia.
Qed.

(** More fuel does not change what the scanner returns, once it
    returns. *)
Lemma scan_fuel_mono (max_digits fuel : nat) :
  (forall depth s more,
     scan_once max_digits fuel depth s <> OutOfFuel ->
     scan_once max_digits (fuel + more) depth s
     = scan_once max_digits fuel depth s)
  /\ (forall depth s acc more,
        array_items max_digits fuel depth s acc <> OutOfFuel ->
        array_items max_digits (fuel + more) depth s acc
        = array_items max_digits fuel depth s acc)
  /\ (forall depth s acc more,
        object_items max_digits fuel depth s acc <> OutOfFuel ->
        object_items max_digits (fuel + more) depth s acc
        = object_items max_digits fuel depth s acc).
Proof.
  induction fuel as [|f [IHs [IHa IHo]]].
  - repeat split; intros; simpl in *; congruence.
  - repeat split.
    + intros depth s more H. change (S f + more) with (S (f + more)).
      cbn [scan_once] in *.
      destruct s as [|c s']; [reflexivity|].
      destruct (N.eqb c DQ); [reflexivity|].
      destruct (N.eqb c 123).
      { destruct depth as [|depth]; [reflexivity|].
        destruct (skip_ws s') as [|c1 r]; [reflexivity|].
        destruct (N.eqb c1 125); [reflexivity|]. apply IHo. exact H. }
      destruct (N.eqb c 91).
      { destruct depth as [|depth]; [reflexivity|].
        destruct (skip_ws s') as [|c1 r]; [reflexivity|].
        destruct (N.eqb c1 93); [reflexivity|]. apply IHa. exact H. }
      reflexivity.
    + intros depth s acc more H. change (S f + more) with (S (f + more)).
      cbn [array_items] in *.
      destruct (scan_once max_digits f depth s) as [v0 r0| | |] eqn:E.
      * rewrite IHs, E by congruence.
        destruct (skip_ws r0) as [|c r2]; [reflexivity|].
        destruct (N.eqb c 93); [reflexivity|].
        destruct (N.eqb c 44); [|reflexivity]. apply IHa. exact H.
      * rewrite IHs, E by congruence. reflexivity.
      * rewrite IHs, E by congruence. reflexivity.
      * congruence.
    + intros depth s acc more H. change (S f + more) with (S (f + more)).
      cbn [object_items] in *.
      destruct s as [|q s']; [reflexivity|].
      destruct (N.eqb q DQ); [|reflexivity].
      destruct (scanstring s' []) as [[key r0]|]; [|reflexivity].
      destruct (skip_ws r0) as [|c1 r1]; [reflexivity|].
      destruct (N.eqb c1 58); [|reflexivity].
      destruct (scan_once max_digits f depth (skip_ws r1))
        as [v0 r2| | |] eqn:E2.
      * rewrite IHs, E2 by congruence.
        destruct (skip_ws r2) as [|c2 r3]; [reflexivity|].
        destruct (N.eqb c2 125); [reflexivity|].
        destruct (N.eqb c2 44); [|reflexivity]. apply IHo. exact H.
      * rewrite IHs, E2 by congruence. reflexivity.
      * rewrite IHs, E2 by congruence. reflexivity.
      * congruence.
Qed.

(** [json.loads] never runs out of fuel, and any larger fuel gives the
    same document: what it reports as undecodable is undecodable. *)
Lemma scan_fuel_enough (rt : runtime) (depth : nat) (s : pystr) :
  decode rt depth s <> OutOfFuel
  /\ forall more,
       scan_once (int_max_str_digits rt) (loads_fuel s + more) depth
         (skip_ws s)
       = decode rt depth s.
Proof.
  assert (D : decode rt depth s <> OutOfFuel).
  { unfold decode, loads_fuel. apply (proj1 (scan_fuel_bound _ _)).
    pose proof (skip_ws_length s). lia. }
  split; [exact D|].
  intros more. apply (proj1 (scan_fuel_mono _ _)). exact D.
Qed.

(** The exceptions of the scanner are those of the interpreter's
    limits: [RecursionError] at an opening bracket or brace with no
    depth left, [ValueError] at too long an integer. *)
Lemma scan_fails (max_digits fuel : nat) :
  (forall depth s e,
     scan_once max_digits fuel depth s = Fails e -> is_limit_error e)
  /\ (forall depth s acc e,
        array_items max_digits fuel depth s acc = Fails e ->
        is_limit_error e)
  /\ (forall depth s acc e,
        object_items max_digits fuel depth s acc = Fails e ->
        is_limit_error e).
Proof.
  induction fuel as [|f [IHs [IHa IHo]]].
  - repeat split; intros; discriminate.
  - repeat split.
    + intros depth s e H. cbn [scan_once] in H.
      destruct s as [|c s']; [discriminate|].
      destruct (N.eqb c DQ).
      { destruct (scanstring s' []) as [[v0 r0]|]; discriminate. }
      destruct (N.eqb c 123).
      { destruct depth as [|depth].
        - inversion H; subst. left. eexists. reflexivity.
        - destruct (skip_ws s') as [|c1 r]; [discriminate|].
          destruct (N.eqb c1 125); [discriminate|]. eapply IHo, H. }
      destruct (N.eqb c 91).
      { destruct depth as [|depth].
        - inversion H; subst. left. eexists. reflexivity.
        - destruct (skip_ws s') as [|c1 r]; [discriminate|].
          destruct (N.eqb c1 93); [discriminate|]. eapply IHa, H. }
      repeat match type of H with
      | (if ?b then _ else _) = _ => destruct b; [discriminate|]
      end.
      apply match_number_fails in H. destruct H as [d [E _]]. subst e.
      right. eexists. reflexivity.
    + intros depth s acc e H. cbn [array_items] in H.
      destruct (scan_once max_digits f depth s) as [v0 r0| |e0|] eqn:E;
        try discriminate.
      * destruct (skip_ws r0) as [|c r2]; [discriminate|].
        destruct (N.eqb c 93); [discriminate|].
        destruct (N.eqb c 44); [|discriminate]. eapply IHa, H.
      * inversion H; subst. eapply IHs, E.
    + intros depth s acc e H. cbn [object_items] in H.
      destruct s as [|q s']; [discriminate|].
      destruct (N.eqb q DQ); [|discriminate].
      destruct (scanstring s' []) as [[key r0]|]; [|discriminate].
      destruct (skip_ws r0) as [|c1 r1]; [discriminate|].
      destruct (N.eqb c1 58); [|discriminate].
      destruct (scan_once max_digits f depth (skip_ws r1))
        as [v0 r2| |e0|] eqn:E2; try discriminate.
      * destruct (skip_ws r2) as [|c2 r3]; [discriminate|].
        destruct (N.eqb c2 125); [discriminate|].
        destruct (N.eqb c2 44); [|discriminate]. eapply IHo, H.
      * inversion H; subst. eapply IHs, E2.
Qed.

Lemma json_loads_raises (rt : runtime) (depth : nat) (s : pystr) (e : exn) :
  json_loads rt depth s = LoadsRaises e -> is_limit_error e.
Proof.
  unfold json_loads, decode.
  destruct (scan_once (int_max_str_digits rt) (loads_fuel s) depth (skip_ws s))
    as [v rest| |e0|] eqn:E; try discriminate.
  - destruct (skip_ws rest); discriminate.
  - intros H; inversion H; subst.
    eapply (proj1 (scan_fails _ _)), E.
Qed.

(** More opening brackets than the depth allows raise
    [RecursionError], whatever follows. *)
Lemma scan_nested_arrays (max_digits : nat) :
  forall depth fuel n,
    depth < n -> 2 * n < fuel ->
    scan_once max_digits fuel depth (repeat 91%N n) = Fails ARRAY_DEPTH_ERROR.
Proof.
  induction depth as [|d IH]; intros fuel n L F.
  - destruct n as [|n]; [lia|]. destruct fuel as [|fuel]; [lia|].
    reflexivity.
  - destruct n as [|[|n]]; try lia.
    destruct fuel as [|[|fuel]]; try lia.
    change (scan_once max_digits (S (S fuel)) (S d) (repeat 91%N (S (S n))))
      with (match scan_once max_digits fuel d (repeat 91%N (S n)) with
            | Parsed v rest =>
                match skip_ws rest with
                | c :: r2 =>
                    if N.eqb c 93 then Parsed (JList (rev [v])) r2
                    else if N.eqb c 44
                    then array_items max_digits fuel d (skip_ws r2) [v]
                    else Invalid
                | [] => Invalid
                end
            | Invalid => Invalid
            | Fails e => Fails e
            | OutOfFuel => OutOfFuel
            end).
    rewrite IH by lia. reflexivity.
Qed.

Lemma json_loads_nested_arrays (rt : runtime) (depth n : nat) :
  depth < n ->
  json_loads rt depth (repeat 91%N n) = LoadsRaises ARRAY_DEPTH_ERROR.
Proof.
  intros L. unfold json_loads, decode, loads_fuel.
  assert (W : skip_ws (repeat 91%N n) = repeat 91%N n)
    by (destruct n; reflexivity).
  rewrite W, repeat_length, scan_nested_arrays by lia. reflexivity.
Qed.

Lemma span_digits_ones (n : nat) :
  span_digits (repeat 49%N n) = (repeat 49%N n, []).
Proof.
  induction n as [|n IH]; [reflexivity|].
  cbn [repeat span_digits]. rewrite IH. reflexivity.
Qed.

(** An integer of more digits than the limit raises [ValueError]. *)
Lemma json_loads_long_integer (rt : runtime) (depth n : nat) :
  640 < n -> 0 < int_max_str_digits rt < n ->
  json_loads rt depth (repeat 49%N n)
  = LoadsRaises (INT_LIMIT_ERROR (int_max_str_digits rt) n).
Proof.
  intros L M. unfold json_loads, decode, loads_fuel.
  destruct n as [|n]; [lia|].
  change (skip_ws (repeat 49%N (S n))) with (repeat 49%N (S n)).
  replace (2 * length (repeat 49%N (S n)) + 2)
    with (S (2 * length (repeat 49%N (S n)) + 1)) by lia.
  change (scan_once (int_max_str_digits rt)
            (S (2 * length (repeat 49%N (S n)) + 1)) depth (repeat 49%N (S n)))
    with (match_number (int_max_str_digits rt) (repeat 49%N (S n))).
  unfold match_number. cbn [repeat].
  change (N.eqb 49 45) with false. cbv iota beta.
  change (int_part (49%N :: repeat 49%N n))
    with (Some (span_digits (repeat 49%N (S n)))).
  rewrite span_digits_ones.
  change (frac_part []) with (@nil N, @nil N).
  change (exp_part []) with (@nil N, @nil N).
  cbv iota beta.
  assert (T : int_too_long (int_max_str_digits rt) (repeat 49%N (S n)) = true).
  { unfold int_too_long. rewrite repeat_length.
    rewrite !andb_true_iff, !Nat.ltb_lt. lia. }
  rewrite T, repeat_length. reflexivity.
Qed.

(** A complete document is a value between white space. *)
Lemma json_loads_complete (rt : runtime) (depth : nat) (s : pystr) (v : json) :
  json_loads rt depth s = Loaded v
  <-> exists rest, decode rt depth s = Parsed v rest /\ skip_ws rest = [].
Proof.
  unfold json_loads. split.
  - destruct (decode rt depth s) as [v0 rest| |e0|]; try discriminate.
    destruct (skip_ws rest) eqn:W; [|discriminate].
    intros H; inversion H; subst. exists rest. split; [reflexivity|exact W].
  - intros [rest [D W]]. rewrite D, W. reflexivity.
Qed.

(** ** The analysis *)

Section AnalysisFacts.

Variable rt : runtime.

Lemma is_digit_value (c : N) :
  is_digit rt c = true -> exists d, digit_value rt c = Some d.
Proof.
  unfold is_digit, digit_value. destruct (is_ascii c).
  - intros ->. eauto.
  - destruct (uni_decimal rt c) as [d|]; [eauto | discriminate].
Qed.

(** [int] accepts every non-empty text of decimal digits. *)
Lemma py_int_digits (s : pystr) :
  s <> [] -> Forall (fun c => is_digit rt c = true) s ->
  exists z, py_int rt s = Ok z.
Proof.
  intros NE F. unfold py_int. destruct s as [|c s]; [congruence|].
  assert (D : forall t acc, Forall (fun c => is_digit rt c = true) t ->
                            exists z, digits_to_int rt t acc = Some z).
  { clear. induction t as [|x t IH]; intros acc F; simpl; [eauto|].
    inversion F; subst.
    destruct (is_digit_value _ H1) as [d ->]. apply IH. assumption. }
  destruct (D _ 0%Z F) as [z ->]. eauto.
Qed.

(** The HTTP signature captures three decimal digits. *)
Lemma http_group_digits (text : pystr) (m : rmatch) :
  re_search rt true (sig_regex (HTTP_SIGNATURE rt)) text = Some m ->
  exists d1 d2 d3,
    group_str m 1 = [d1; d2; d3]
    /\ Forall (fun c => is_digit rt c = true) [d1; d2; d3].
Proof.
  intros H. apply re_search_leftmost in H. destruct H as [_ [H _]].
  change (sig_regex (HTTP_SIGNATURE rt))
    with (RCat (ROpt (lit "requests.exceptions."))
            (RCat (lit "HTTPError") (RCat any0 (RGroup 1 digit3)))) in H.
  unfold match_here in H.
  apply rmatch_at_cat in H. destruct H as [s1 [g1 H]].
  apply rmatch_at_cat in H. destruct H as [s2 [g2 H]].
  apply rmatch_at_cat in H. destruct H as [s3 [g3 H]].
  cbn [rmatch_at digit3 seq in_cset] in H.
  destruct s3 as [|d1 s3]; [discriminate|].
  destruct (is_digit rt d1) eqn:D1; [|discriminate].
  destruct s3 as [|d2 s3]; [discriminate|].
  destruct (is_digit rt d2) eqn:D2; [|discriminate].
  destruct s3 as [|d3 s3]; [discriminate|].
  destruct (is_digit rt d3) eqn:D3; [|discriminate].
  replace (length (d1 :: d2 :: d3 :: s3) - length s3) with 3 in H
    by (cbn [length]; lia).
  inversion H; subst. exists d1, d2, d3. split; [reflexivity|].
  repeat constructor; assumption.
Qed.

(** No explanation producer fails on a match of its own pattern. *)
Lemma explanation_total (sig : Signature) (text : pystr) (m : rmatch) :
  In sig (ERROR_PATTERNS rt) ->
  re_search rt true (sig_regex sig) text = Some m ->
  exists e, explanation_fn sig m = Ok e.
Proof.
  intros I H. unfold ERROR_PATTERNS in I.
  repeat (destruct I as [<- | I]; [eexists; reflexivity|]).
  destruct I as [<- | []].
  apply http_group_digits in H. destruct H as [d1 [d2 [d3 [G F]]]].
  cbn [explanation_fn]. rewrite G.
  destruct (py_int_digits (s := [d1; d2; d3])) as [z ->];
    [discriminate | exact F |].
  eexists; reflexivity.
Qed.

Lemma signature_hit_cases (text : pystr) (sig : Signature) :
  In sig (ERROR_PATTERNS rt) ->
  match re_search rt true (sig_regex sig) text with
  | Some m =>
      exists e, explanation_fn sig m = Ok e
        /\ signature_hit rt text sig =
           [{| pattern := sig_pattern sig; matched := m_text m;
               explanation := e |}]
  | None => signature_hit rt text sig = []
  end.
Proof.
  intros I. unfold signature_hit.
  destruct (re_search rt true (sig_regex sig) text) as [m|] eqn:E;
    [|reflexivity].
  destruct (@explanation_total sig text m I E) as [e X].
  exists e. rewrite X. auto.
Qed.

Lemma match_signatures_fold (text : pystr) (sigs : list Signature) :
  (forall sig, In sig sigs -> In sig (ERROR_PATTERNS rt)) ->
  forall found,
  fold_left (fun acc sig => do found <- acc; match_signature rt text found sig)
    sigs (Ok found)
  = Ok (found ++ flat_map (signature_hit rt text) sigs).
Proof.
  induction sigs as [|sig sigs IH]; intros S found; simpl.
  - rewrite app_nil_r; reflexivity.
  - pose proof (@signature_hit_cases text sig (S _ (or_introl eq_refl))) as C.
    unfold match_signature at 2.
    destruct (re_search rt true (sig_regex sig) text) as [m|].
    + destruct C as [e [X ->]]. rewrite X. simpl.
      rewrite IH by (intros; apply S; right; assumption).
      rewrite <- app_assoc. reflexivity.
    + rewrite C. simpl. apply IH. intros; apply S; right; assumption.
Qed.

(** The loop over the registry never fails and never stops early: it
    gathers the contribution of every signature, in registry order. *)
Lemma match_signatures_eq (text : pystr) :
  match_signatures rt text
  = Ok (flat_map (signature_hit rt text) (ERROR_PATTERNS rt)).
Proof.
  unfold match_signatures. rewrite match_signatures_fold; auto.
Qed.

Lemma extract_stack_frames_eq (log : pystr) :
  extract_stack_frames rt log
  = map py_frame (re_finditer rt py_pattern log)
    ++ map js_frame (re_finditer rt js_pattern log).
Proof.
  unfold extract_stack_frames. rewrite !fold_left_snoc. reflexivity.
Qed.

(** [analyze_error], once its format and its text are settled. *)
Lemma analyze_error_eq (log log_format : pystr) :
  analyze_error rt log log_format
  = do tag <- resolve_format rt log log_format;
    do text <- unwrap_json rt log tag;
    Ok (analysis_of rt tag text).
Proof.
  unfold analyze_error, analysis_of.
  destruct (resolve_format rt log log_format) as [tag|e]; [|reflexivity].
  cbn [bind].
  destruct (unwrap_json rt log tag) as [text|e]; [|reflexivity].
  cbn [bind]. rewrite match_signatures_eq. cbn [bind].
  unfold suggestions_for.
  destruct (flat_map (signature_hit rt text) (ERROR_PATTERNS rt));
    destruct (extract_stack_frames rt text); reflexivity.
Qed.

(** An analysis that returns has settled its format and its text. *)
Lemma analyze_error_ok (log log_format : pystr) (r : Analysis) :
  analyze_error rt log log_format = Ok r ->
  exists tag text,
    resolve_format rt log log_format = Ok tag
    /\ unwrap_json rt log tag = Ok text
    /\ r = analysis_of rt tag text.
Proof.
  rewrite analyze_error_eq.
  destruct (resolve_format rt log log_format) as [tag|e]; [|discriminate].
  cbn [bind].
  destruct (unwrap_json rt log tag) as [text|e] eqn:U; [|discriminate].
  cbn [bind]. intros H. exists tag, text.
  split; [reflexivity|]. split; [exact U|].
  injection H as H. symmetry. exact H.
Qed.

(** The text is rewritten only for a parsed mapping under [json]. *)
Lemma unwrap_json_unchanged (log log_format : pystr) :
  log_format <> py "json"
  \/ json_loads rt (analyze_depth rt) log = JSONDecodeError
  \/ (exists v, json_loads rt (analyze_depth rt) log = Loaded v
                /\ forall d, v <> JDict d) ->
  unwrap_json rt log log_format = Ok log.
Proof.
  unfold unwrap_json. intros [NJ | [NP | [v [P ND]]]].
  - destruct (pystr_eqb log_format (py "json")) eqn:E; [|reflexivity].
    apply pystr_eqb_eq in E. contradiction.
  - rewrite NP. destruct (pystr_eqb _ _); reflexivity.
  - rewrite P. destruct (pystr_eqb _ _); [|reflexivity].
    destruct v; try reflexivity. exfalso. eapply ND. reflexivity.
Qed.

End AnalysisFacts.

(** ** The claims *)

Section Claims.

Variable rt : runtime.

(** Every numbered group of a frame pattern took part in each match
    that [extract_stack_frames] reads, *)
Lemma frame_groups_take_part (log : pystr) (m : rmatch) (i : nat) :
  In m (re_finditer rt py_pattern log) \/ In m (re_finditer rt js_pattern log) ->
  In i [1; 2; 3] ->
  lookup_group i (m_groups m) <> None.
Proof.
  intros [I | I] G; eapply re_finditer_groups; try exact I;
    simpl in G; destruct G as [<- | [<- | [<- | []]]]; reflexivity.
Qed.

(** and every numbered group of a signature took part in the match
    its explanation producer is given. *)
Lemma signature_groups_take_part (sig : Signature) (text : pystr)
    (m : rmatch) (i : nat) :
  In sig (ERROR_PATTERNS rt) ->
  re_search rt true (sig_regex sig) text = Some m ->
  In i (groups_of (sig_regex sig)) ->
  lookup_group i (m_groups m) <> None.
Proof.
  intros I H G. eapply re_search_groups; [exact H|].
  assert (A : forallb (fun sg => forallb (mandatory (sig_regex sg))
                                   (groups_of (sig_regex sg)))
                (ERROR_PATTERNS rt) = true) by (vm_compute; reflexivity).
  rewrite forallb_forall in A. specialize (A _ I).
  rewrite forallb_forall in A. apply A. exact G.
Qed.

Lemma location_suggestion_fresh (f : StackFrame) :
  ~ In (location_suggestion f) (NO_MATCH_SUGGESTION :: GENERIC_SUGGESTIONS).
Proof.
  unfold location_suggestion. intros I.
  repeat (destruct I as [E | I]; [vm_compute in E; discriminate|]).
  exact I.
Qed.

Lemma no_match_not_generic : ~ In NO_MATCH_SUGGESTION GENERIC_SUGGESTIONS.
Proof.
  intros I.
  repeat (destruct I as [E | I]; [vm_compute in E; discriminate|]).
  exact I.
Qed.

(** C1 (amended): the stack frames of the result are those of the text
    that signature matching used.  That text is the input, except when
    the resolved format is json and the input parses as a mapping: then
    it is the text rebuilt from the message, error and stack fields, and
    frames are extracted from the rebuilt text. *)
Theorem stack_frames_of_analysed_text (log log_format : pystr) (r : Analysis) :
  analyze_error rt log log_format = Ok r ->
  exists tag text,
    resolve_format rt log log_format = Ok tag
    /\ unwrap_json rt log tag = Ok text
    /\ stack_frames r = extract_stack_frames rt text
    /\ errors_found r = flat_map (signature_hit rt text) (ERROR_PATTERNS rt)
    /\ (tag <> py "json"
        \/ json_loads rt (analyze_depth rt) log = JSONDecodeError
        \/ (exists v, json_loads rt (analyze_depth rt) log = Loaded v
                      /\ forall d, v <> JDict d) ->
        text = log)
    /\ (forall d,
          tag = py "json" ->
          json_loads rt (analyze_depth rt) log = Loaded (JDict d) ->
          exists message err,
            dict_get d (py "message") (JStr []) = JStr message
            /\ dict_get d (py "error") (JStr []) = JStr err
            /\ text = message ++ py " " ++ err ++ py " "
                      ++ py_str rt (dict_get d (py "stack") (JStr []))).
Proof.
  intros H. destruct (analyze_error_ok rt _ _ H) as [tag [text [F [U ->]]]].
  cbn [analysis_of stack_frames errors_found].
  exists tag, text. repeat split; try assumption.
  - intros C. rewrite (unwrap_json_unchanged rt _ C) in U. congruence.
  - intros d T P. unfold unwrap_json in U. rewrite T, pystr_eqb_refl, P in U.
    destruct (dict_get d (py "message") (JStr [])) as [| | | |message| |];
      try discriminate.
    destruct (dict_get d (py "error") (JStr [])) as [| | | |err| |];
      try discriminate.
    exists message, err. repeat split. cbn in U. inversion U.
    rewrite <- !app_assoc. reflexivity.
Qed.

(** C2 (amended): the empty text under [auto] is plain, has no errors
    and no frames; its suggestions are the no-match sentence followed
    by the three generic suggestions. *)
Theorem analyze_empty_text :
  analyze_error rt [] (py "auto")
  = Ok {| format_detected := py "plain";
          errors_found := [];
          suggestions := NO_MATCH_SUGGESTION :: GENERIC_SUGGESTIONS;
          stack_frames := [] |}
  /\ length GENERIC_SUGGESTIONS = 3.
Proof. split; vm_compute; reflexivity. Qed.

(** C3: the suggestions are never empty.  The no-match sentence is
    among them exactly when no error was found, and is then the first;
    a sentence naming the first frame is among them exactly when there
    is a frame, after the no-match sentence and directly before the
    generic suggestions; it reads [Error originated in], the file, a
    colon, the line, [in function] and the function of that frame.  The
    three generic suggestions are always the last three, in their fixed
    order. *)
Theorem suggestions_structure (log log_format : pystr) (r : Analysis) :
  analyze_error rt log log_format = Ok r ->
  suggestions r = suggestions_for (errors_found r) (stack_frames r)
  /\ suggestions r <> []
  /\ (errors_found r = [] <-> In NO_MATCH_SUGGESTION (suggestions r))
  /\ (errors_found r = [] <-> hd_error (suggestions r) = Some NO_MATCH_SUGGESTION)
  /\ (stack_frames r <> [] <->
      exists f, In (location_suggestion f) (suggestions r))
  /\ (forall f, hd_error (stack_frames r) = Some f ->
        exists before,
          suggestions r
          = before ++ location_suggestion f :: GENERIC_SUGGESTIONS
          /\ (before = [] \/ before = [NO_MATCH_SUGGESTION]))
  /\ (exists before,
        suggestions r = before ++ GENERIC_SUGGESTIONS
        /\ length GENERIC_SUGGESTIONS = 3)
  /\ (forall f, hd_error (stack_frames r) = Some f ->
        exists before,
          suggestions r
          = before
            ++ [ py "Error originated in " ++ file f ++ py ":" ++ line f
                 ++ py " in function " ++ function f;
                 py "Add logging around the error location for more context";
                 py "Check if this error is reproducible consistently";
                 py "Review recent code changes that might have caused this" ]
          /\ (errors_found r <> [] -> before = [])
          /\ (errors_found r = [] ->
              before
              = [py "No known error patterns matched. Review the full log for context."]))
  /\ (stack_frames r = [] ->
      forall text, ~ In (py "Error originated in " ++ text) (suggestions r)).
Proof.
  intros H. destruct (analyze_error_ok rt _ _ H) as [tag [text [_ [_ ->]]]].
  clear H. unfold analysis_of. cbv zeta.
  set (found := flat_map (signature_hit rt text) (ERROR_PATTERNS rt)).
  set (frames := extract_stack_frames rt text).
  clearbody found frames.
  cbn [suggestions errors_found stack_frames].
  split; [reflexivity|]. unfold suggestions_for.
  pose proof no_match_not_generic as NG.
  split; [|split; [|split; [|split; [|split; [|split; [|split]]]]]].
  - destruct found, frames; unfold GENERIC_SUGGESTIONS; cbn [app];
      discriminate.
  - split.
    + intros ->. left; reflexivity.
    + destruct found as [|e found]; [reflexivity|]. intros I. exfalso.
      destruct frames as [|f frames]; cbn [app] in I.
      * exact (NG I).
      * destruct I as [E | I]; [|exact (NG I)].
        apply (@location_suggestion_fresh f). left. symmetry; exact E.
  - split.
    + intros ->. reflexivity.
    + destruct found as [|e found]; [reflexivity|]. intros E. exfalso.
      destruct frames as [|f frames]; cbn [app hd_error] in E.
      * vm_compute in E. discriminate.
      * apply (@location_suggestion_fresh f). left. congruence.
  - split.
    + destruct frames as [|f frames]; [congruence|]. intros _. exists f.
      apply in_or_app. right. left. reflexivity.
    + intros [f I]. destruct frames as [|f0 frames]; [|discriminate].
      exfalso. apply (@location_suggestion_fresh f).
      destruct found; cbn [app] in I.
      * destruct I as [<- | I]; [left; reflexivity | right; exact I].
      * right; exact I.
  - intros f F. destruct frames as [|f0 frames]; [discriminate|].
    inversion F; subst.
    destruct found; [exists [NO_MATCH_SUGGESTION] | exists []]; auto.
  - destruct found, frames; cbn [app];
      [exists [NO_MATCH_SUGGESTION] | eexists [_; _] | exists [] | eexists [_]];
      split; reflexivity.
  - intros f F. destruct frames as [|f0 frames]; [discriminate|].
    inversion F; subst.
    destruct found as [|e found].
    + exists [NO_MATCH_SUGGESTION].
      split; [reflexivity|]. split; [congruence|]. reflexivity.
    + exists []. split; [reflexivity|]. split; [reflexivity|]. discriminate.
  - intros -> t I. cbn [app] in I. apply in_app_or in I.
    destruct I as [I | I].
    + destruct found; [|exact I].
      destruct I as [E | []]. vm_compute in E. discriminate.
    + repeat (destruct I as [E | I]; [vm_compute in E; discriminate|]).
      exact I.
Qed.

Lemma numeric_message_loads (depth : nat) :
  json_loads rt depth Samples.numeric_message
  = match depth with
    | 0 => LoadsRaises OBJECT_DEPTH_ERROR
    | S _ => Loaded (JDict [(py "message", JInt 1)])
    end.
Proof. destruct depth; vm_compute; reflexivity. Qed.

Lemma numeric_message_analysis :
  analyze_error rt Samples.numeric_message (py "auto")
  = Raise (if has_depth rt
           then TypeError (py "unsupported operand type(s) for +: 'int' and 'str'")
           else OBJECT_DEPTH_ERROR).
Proof.
  unfold analyze_error, resolve_format, detect_log_format, has_depth.
  rewrite pystr_eqb_refl, numeric_message_loads.
  destruct (detect_depth rt) as [|d]; [reflexivity|].
  cbn [bind]. unfold unwrap_json.
  rewrite pystr_eqb_refl, numeric_message_loads.
  destruct (analyze_depth rt) as [|a]; reflexivity.
Qed.

Lemma nested_arrays_analysis :
  analyze_error rt (Samples.nested_arrays (S (detect_depth rt))) (py "auto")
  = Raise ARRAY_DEPTH_ERROR.
Proof.
  unfold analyze_error, resolve_format, detect_log_format, Samples.nested_arrays.
  rewrite pystr_eqb_refl, json_loads_nested_arrays by lia. reflexivity.
Qed.

(** C4: on a JSON mapping whose message is a number, [analyze_error]
    raises a [TypeError], and so does formatting its result; [execute]
    then reports the failure.  On a text that opens more arrays than
    [json.loads] can enter, it raises [RecursionError]. *)
Theorem analyze_error_numeric_message :
  analyze_error rt Samples.numeric_message (py "auto")
  = Raise (if has_depth rt
           then TypeError (py "unsupported operand type(s) for +: 'int' and 'str'")
           else OBJECT_DEPTH_ERROR)
  /\ (do analysis <- analyze_error rt Samples.numeric_message (py "auto");
      Ok (format_analysis analysis))
     = Raise (if has_depth rt
              then TypeError (py "unsupported operand type(s) for +: 'int' and 'str'")
              else OBJECT_DEPTH_ERROR)
  /\ (has_depth rt = true ->
      json_loads rt (analyze_depth rt) Samples.numeric_message
      = Loaded (JDict [(py "message", JInt 1)]))
  /\ analyze_error rt (Samples.nested_arrays (S (detect_depth rt))) (py "auto")
     = Raise ARRAY_DEPTH_ERROR
  /\ (do analysis <-
        analyze_error rt (Samples.nested_arrays (S (detect_depth rt))) (py "auto");
      Ok (format_analysis analysis))
     = Raise ARRAY_DEPTH_ERROR
  /\ has_depth ascii_runtime = true.
Proof.
  rewrite numeric_message_analysis, nested_arrays_analysis.
  repeat split.
  unfold has_depth. rewrite numeric_message_loads.
  destruct (analyze_depth rt); [|reflexivity].
  rewrite andb_false_r. discriminate.
Qed.

Lemma tags_distinct :
  py "json" <> py "python" /\ py "json" <> py "javascript"
  /\ py "json" <> py "plain" /\ py "python" <> py "javascript"
  /\ py "python" <> py "plain" /\ py "javascript" <> py "plain".
Proof. repeat split; intros E; vm_compute in E; discriminate. Qed.

(** C6: [detect_log_format] raises on some malformed payloads: a text
    that opens more arrays or objects than [json.loads] can enter makes
    it raise [RecursionError], and an integer of more digits than the
    limit makes it raise [ValueError]; the [try] absorbs
    [JSONDecodeError] only.  Whenever [json.loads] raises neither, the
    answer is that of the first rule that applies: json when the text is
    a complete JSON document, a value with nothing but white space after
    it; else python when the traceback header occurs in it; else
    javascript when the call-frame expression matches somewhere; else
    plain. *)
Theorem detect_raises_on_deep_nesting :
  detect_log_format rt (Samples.nested_arrays (S (detect_depth rt)))
  = Raise ARRAY_DEPTH_ERROR
  /\ (forall n,
        640 < n -> 0 < int_max_str_digits rt < n ->
        detect_log_format rt (Samples.long_integer n)
        = Raise (INT_LIMIT_ERROR (int_max_str_digits rt) n))
  /\ detect_log_format ascii_runtime (Samples.nested_arrays 2000)
     = Raise (RecursionError
         (py "maximum recursion depth exceeded while decoding a JSON array from a unicode string"))
  /\ detect_log_format ascii_runtime
       (Samples.nested_arrays 1000 ++ repeat 93%N 1000)
     = Raise (RecursionError
         (py "maximum recursion depth exceeded while decoding a JSON array from a unicode string"))
  /\ detect_log_format ascii_runtime (Samples.long_integer 4301)
     = Raise (ValueError
         (py "Exceeds the limit (4300 digits) for integer string conversion: value has 4301 digits; use sys.set_int_max_str_digits() to increase the limit"))
  /\ (forall log : pystr,
        let document := json_loads rt (detect_depth rt) log in
        (forall e, detect_log_format rt log = Raise e <-> document = LoadsRaises e)
        /\ (forall e, detect_log_format rt log = Raise e -> is_limit_error e)
        /\ (detect_log_format rt log = Ok (py "json") <->
            exists v, document = Loaded v)
        /\ (detect_log_format rt log = Ok (py "python") <->
            document = JSONDecodeError /\ occurs_in TRACEBACK_HEADER log)
        /\ (detect_log_format rt log = Ok (py "javascript") <->
            document = JSONDecodeError /\ ~ occurs_in TRACEBACK_HEADER log
            /\ matches_somewhere rt false js_probe log)
        /\ (detect_log_format rt log = Ok (py "plain") <->
            document = JSONDecodeError /\ ~ occurs_in TRACEBACK_HEADER log
            /\ ~ matches_somewhere rt false js_probe log)
        /\ (forall tag,
              detect_log_format rt log = Ok tag ->
              In tag [py "json"; py "python"; py "javascript"; py "plain"])
        /\ ((exists v, document = Loaded v) <->
            exists v rest,
              decode rt (detect_depth rt) log = Parsed v rest
              /\ skip_ws rest = [])
        /\ decode rt (detect_depth rt) log <> OutOfFuel)
  /\ detect_log_format rt Samples.json_traceback = Ok (py "json")
  /\ detect_log_format rt Samples.traceback_and_js = Ok (py "python")
  /\ detect_log_format rt Samples.js_only = Ok (py "javascript")
  /\ detect_log_format rt Samples.number_then_frame = Ok (py "javascript")
  /\ detect_log_format rt Samples.string_then_traceback = Ok (py "python")
  /\ detect_log_format rt Samples.broken_json_traceback
     = (if 0 <? detect_depth rt then Ok (py "python")
        else Raise OBJECT_DEPTH_ERROR).
Proof.
  split.
  { unfold detect_log_format, Samples.nested_arrays.
    rewrite json_loads_nested_arrays by lia. reflexivity. }
  split.
  { intros n L M. unfold detect_log_format, Samples.long_integer.
    rewrite json_loads_long_integer by assumption. reflexivity. }
  split.
  { unfold detect_log_format, Samples.nested_arrays.
    rewrite json_loads_nested_arrays by (cbn [detect_depth ascii_runtime]; lia).
    reflexivity. }
  split; [vm_compute; reflexivity|].
  split.
  { unfold detect_log_format, Samples.long_integer.
    rewrite json_loads_long_integer
      by (cbn [int_max_str_digits ascii_runtime]; lia).
    vm_compute. reflexivity. }
  split.
  2:{ repeat split; try (vm_compute; reflexivity).
      unfold detect_log_format.
      destruct (detect_depth rt); vm_compute; reflexivity. }
  intros log. cbv zeta.
  destruct tags_distinct as [T1 [T2 [T3 [T4 [T5 T6]]]]].
  pose proof (contains_spec TRACEBACK_HEADER log) as CS.
  pose proof (re_search_somewhere rt false js_probe log) as RS.
  pose proof (proj1 (scan_fuel_enough rt (detect_depth rt) log)) as FE.
  pose proof (@json_loads_raises rt (detect_depth rt) log) as LR.
  assert (CP : (exists v, json_loads rt (detect_depth rt) log = Loaded v) <->
               exists v rest,
                 decode rt (detect_depth rt) log = Parsed v rest
                 /\ skip_ws rest = []).
  { split.
    - intros [v P]. apply json_loads_complete in P.
      destruct P as [rest P]. exists v, rest. exact P.
    - intros [v [rest P]]. exists v. apply json_loads_complete.
      exists rest. exact P. }
  unfold detect_log_format.
  destruct (json_loads rt (detect_depth rt) log) as [v| |e0].
  { split; [split; intros; discriminate|].
    split; [intros; discriminate|].
    split; [split; [intros _; exists v; reflexivity | reflexivity]|].
    split; [split; [intros E | intros [E _]]; try discriminate;
            exfalso; apply T1; congruence|].
    split; [split; [intros E | intros [E _]]; try discriminate;
            exfalso; apply T2; congruence|].
    split; [split; [intros E | intros [E _]]; try discriminate;
            exfalso; apply T3; congruence|].
    split; [intros tag E; left; congruence|].
    split; assumption. }
  2:{ split; [split; intros; congruence|].
      split; [intros e E; apply LR; congruence|].
      split; [split; [discriminate | intros [v E]; discriminate]|].
      split; [split; [discriminate | intros [E _]; discriminate]|].
      split; [split; [discriminate | intros [E _]; discriminate]|].
      split; [split; [discriminate | intros [E _]; discriminate]|].
      split; [intros tag E; discriminate|].
      split; assumption. }
  destruct (contains TRACEBACK_HEADER log).
  { assert (O : occurs_in TRACEBACK_HEADER log) by (apply CS; reflexivity).
    split; [split; intros; discriminate|].
    split; [intros; discriminate|].
    split; [split; [intros E; exfalso; apply T1; congruence
                   | intros [v E]; discriminate]|].
    split; [split; [intros _; split; [reflexivity | exact O] | reflexivity]|].
    split; [split; [intros E; exfalso; apply T4; congruence
                   | intros [_ [NO _]]; contradiction]|].
    split; [split; [intros E; exfalso; apply T5; congruence
                   | intros [_ [NO _]]; contradiction]|].
    split; [intros tag E; right; left; congruence|].
    split; assumption. }
  assert (NO : ~ occurs_in TRACEBACK_HEADER log).
  { intros O. apply CS in O. discriminate. }
  destruct (re_search rt false js_probe log) as [m|].
  { assert (M : matches_somewhere rt false js_probe log)
      by (apply RS; discriminate).
    split; [split; intros; discriminate|].
    split; [intros; discriminate|].
    split; [split; [intros E; exfalso; apply T2; congruence
                   | intros [v E]; discriminate]|].
    split; [split; [intros E; exfalso; apply T4; congruence
                   | intros [_ O]; contradiction]|].
    split; [split; [intros _; repeat split; assumption | reflexivity]|].
    split; [split; [intros E; exfalso; apply T6; congruence
                   | intros [_ [_ NM]]; contradiction]|].
    split; [intros tag E; right; right; left; congruence|].
    split; assumption. }
  assert (NM : ~ matches_somewhere rt false js_probe log).
  { intros M. apply RS in M. apply M. reflexivity. }
  split; [split; intros; discriminate|].
  split; [intros; discriminate|].
  split; [split; [intros E; exfalso; apply T3; congruence
                 | intros [v E]; discriminate]|].
  split; [split; [intros E; exfalso; apply T5; congruence
                 | intros [_ O]; contradiction]|].
  split; [split; [intros E; exfalso; apply T6; congruence
                 | intros [_ [_ M]]; contradiction]|].
  split; [split; [intros _; repeat split; assumption | reflexivity]|].
  split; [intros tag E; right; right; right; left; congruence|].
  split; assumption.
Qed.

(** C7: on a match of the HTTP signature the captured digits are read
    as a number and looked up in the status table.  A captured 404 gives
    exactly the fixed 404 explanation; a code that the table lacks, such
    as 599, gives the generic sentence that names the code; no code
    makes the producer fail. *)
Theorem http_status_explanation (text : pystr) (m : rmatch) :
  re_search rt true (sig_regex (HTTP_SIGNATURE rt)) text = Some m ->
  In (HTTP_SIGNATURE rt) (ERROR_PATTERNS rt)
  /\ exists code,
       py_int rt (group_str m 1) = Ok code
       /\ explanation_fn (HTTP_SIGNATURE rt) m
          = Ok (get_http_error_explanation code)
       /\ (code = 404%Z -> get_http_error_explanation code = HTTP_404)
       /\ (http_lookup HTTP_EXPLANATIONS code = None ->
           get_http_error_explanation code
           = py "HTTP error " ++ str_int code
             ++ py ". Check the API documentation.")
       /\ (group_str m 1 = py "404" ->
           explanation_fn (HTTP_SIGNATURE rt) m = Ok HTTP_404)
       /\ (group_str m 1 = py "599" ->
           explanation_fn (HTTP_SIGNATURE rt) m
           = Ok (py "HTTP error 599. Check the API documentation.")).
Proof.
  intros H. split.
  { unfold HTTP_SIGNATURE, ERROR_PATTERNS. cbn [last].
    do 18 right. left. reflexivity. }
  destruct (@http_group_digits rt text m H) as [d1 [d2 [d3 [G F]]]].
  destruct (@py_int_digits rt [d1; d2; d3]) as [code P];
    [discriminate | exact F |].
  exists code. rewrite G.
  change (explanation_fn (HTTP_SIGNATURE rt) m)
    with (do c <- py_int rt (group_str m 1);
          Ok (get_http_error_explanation c)).
  rewrite G, P. cbn [bind]. repeat split.
  - intros ->. reflexivity.
  - intros L. unfold get_http_error_explanation. rewrite L. reflexivity.
  - intros E. rewrite E in P. vm_compute in P. inversion P. reflexivity.
  - intros E. rewrite E in P. vm_compute in P. inversion P. reflexivity.
Qed.

(** C8: the frames are those of the Python pattern, in text order,
    followed by those of the JavaScript pattern, in text order, wherever
    the two kinds lie in the text: successive matches of one pattern lie
    one after the other, nothing is dropped or merged, and a text
    without frames gives the empty list. *)
Theorem frames_dialect_major (log : pystr) :
  let python_matches := re_finditer rt py_pattern log in
  let js_matches := re_finditer rt js_pattern log in
  extract_stack_frames rt log
  = map py_frame python_matches ++ map js_frame js_matches
  /\ length (extract_stack_frames rt log)
     = length python_matches + length js_matches
  /\ StronglySorted precedes python_matches
  /\ StronglySorted precedes js_matches
  /\ (forall i f, nth_error (extract_stack_frames rt log) i = Some f ->
        if i <? length python_matches
        then option_map py_frame (nth_error python_matches i) = Some f
        else option_map js_frame
               (nth_error js_matches (i - length python_matches)) = Some f)
  /\ (python_matches = [] -> js_matches = [] ->
      extract_stack_frames rt log = [])
  /\ extract_stack_frames rt Samples.js_then_python
     = [Samples.frame_x; Samples.frame_x; Samples.frame_a]
  /\ extract_stack_frames rt Samples.no_error = [].
Proof.
  cbv zeta. rewrite extract_stack_frames_eq.
  split; [reflexivity|].
  split; [rewrite length_app, !length_map; reflexivity|].
  split; [apply re_finditer_sorted|].
  split; [apply re_finditer_sorted|].
  split.
  { intros i f N.
    destruct (i <? length (re_finditer rt py_pattern log)) eqn:L.
    - apply Nat.ltb_lt in L.
      rewrite nth_error_app1 in N by (rewrite length_map; exact L).
      rewrite nth_error_map in N. exact N.
    - apply Nat.ltb_ge in L.
      rewrite nth_error_app2 in N by (rewrite length_map; exact L).
      rewrite length_map, nth_error_map in N. exact N. }
  split; [intros -> ->; reflexivity|].
  split; vm_compute; reflexivity.
Qed.

(** C9: every failure of [execute] has an empty output.  An empty log
    argument gives the fixed message; a file that cannot be read gives
    the read error after a fixed prefix; a failure of the analysis or
    of the formatting gives its text after the prefix [Analysis failed: ].
    Success carries the formatted analysis and no error. *)
Theorem execute_failure_paths (fs : pystr -> file_read)
    (args : list (pystr * pystr)) :
  let log_input := dict_get args (py "log") [] in
  let log_format := dict_get args (py "format") (py "auto") in
  let r := execute rt fs args in
  (success r = false -> output r = [] /\ error r <> None)
  /\ (log_input = [] ->
      r = {| success := false; output := [];
             error := Some (py "No log input provided. Use log='...' to provide error text.") |})
  /\ (forall err,
        log_input <> [] -> fs log_input = ReadFails err ->
        r = {| success := false; output := [];
               error := Some (py "Failed to read log file: " ++ err) |})
  /\ (forall text e,
        log_input <> [] ->
        fs log_input = Contents text
        \/ (fs log_input = NotAFile /\ text = log_input) ->
        analyze_error rt text log_format = Raise e ->
        r = {| success := false; output := [];
               error := Some (py "Analysis failed: " ++ exn_text e) |})
  /\ (success r = true ->
      exists text analysis,
        analyze_error rt text log_format = Ok analysis
        /\ r = {| success := true; output := format_analysis analysis;
                  error := None |})
  /\ execute rt (fun _ => NotAFile) [(py "log", Samples.numeric_message)]
     = {| success := false; output := [];
          error :=
            Some (if has_depth rt
                  then py "Analysis failed: unsupported operand type(s) for +: 'int' and 'str'"
                  else py "Analysis failed: maximum recursion depth exceeded while decoding a JSON object from a unicode string") |}
  /\ execute rt (fun _ => NotAFile)
       [(py "log", Samples.nested_arrays (S (detect_depth rt)))]
     = {| success := false; output := [];
          error := Some (py "Analysis failed: maximum recursion depth exceeded while decoding a JSON array from a unicode string") |}.
Proof.
  cbv zeta. unfold execute.
  set (log_input := dict_get args (py "log") []).
  set (log_format := dict_get args (py "format") (py "auto")).
  clearbody log_input log_format.
  split; [|split; [|split; [|split; [|split; [|split]]]]].
  - destruct log_input as [|c l]; [intros _; split; [reflexivity | discriminate]|].
    destruct (fs (c :: l)); [| intros _; split; [reflexivity | discriminate] |];
      unfold run_analysis;
      match goal with
      | |- context [analyze_error rt ?t ?f] =>
          destruct (analyze_error rt t f); cbn [bind];
          [discriminate | intros _; split; [reflexivity | discriminate]]
      end.
  - intros ->. reflexivity.
  - intros err NE F. destruct log_input; [congruence|]. rewrite F. reflexivity.
  - intros text e NE F A. destruct log_input as [|c l]; [congruence|].
    destruct F as [F | [F ->]]; rewrite F; unfold run_analysis; rewrite A;
      reflexivity.
  - destruct log_input as [|c l]; [discriminate|].
    destruct (fs (c :: l)) as [|err|text]; [|discriminate|];
      unfold run_analysis;
      match goal with
      | |- context [analyze_error rt ?t ?f] =>
          destruct (analyze_error rt t f) as [analysis|e] eqn:A; cbn [bind];
          [intros _; exists t, analysis; split; [exact A | reflexivity]
          | discriminate]
      end.
  - change (dict_get [(py "log", Samples.numeric_message)] (py "log") [])
      with Samples.numeric_message.
    change (dict_get [(py "log", Samples.numeric_message)] (py "format")
              (py "auto")) with (py "auto").
    change (match Samples.numeric_message with
            | [] =>
                {| success := false; output := [];
                   error := Some (py "No log input provided. Use log='...' to provide error text.") |}
            | _ :: _ => run_analysis rt Samples.numeric_message (py "auto")
            end)
      with (run_analysis rt Samples.numeric_message (py "auto")).
    unfold run_analysis. rewrite numeric_message_analysis. cbn [bind].
    destruct (has_depth rt); reflexivity.
  - assert (D : dict_get
                  [(py "log", Samples.nested_arrays (S (detect_depth rt)))]
                  (py "log") []
                = Samples.nested_arrays (S (detect_depth rt))) by reflexivity.
    assert (F : dict_get
                  [(py "log", Samples.nested_arrays (S (detect_depth rt)))]
                  (py "format") (py "auto") = py "auto") by reflexivity.
    rewrite D, F.
    change (Samples.nested_arrays (S (detect_depth rt)))
      with (91%N :: Samples.nested_arrays (detect_depth rt)) at 1 2.
    cbv iota beta.
    change (91%N :: Samples.nested_arrays (detect_depth rt))
      with (Samples.nested_arrays (S (detect_depth rt))).
    unfold run_analysis. rewrite nested_arrays_analysis. reflexivity.
Qed.

(** C10: when the resolved format is json and the text parses as a
    JSON value that is no mapping, the text is left as it is: the
    analysis returns, its format is json, and its errors and frames are
    those of the input text itself. *)
Theorem json_non_mapping_unchanged (log log_format : pystr) (v : json) :
  resolve_format rt log log_format = Ok (py "json") ->
  json_loads rt (analyze_depth rt) log = Loaded v ->
  (forall d, v <> JDict d) ->
  unwrap_json rt log (py "json") = Ok log
  /\ match_signatures rt log
     = Ok (flat_map (signature_hit rt log) (ERROR_PATTERNS rt))
  /\ analyze_error rt log log_format
     = Ok {| format_detected := py "json";
             errors_found := flat_map (signature_hit rt log) (ERROR_PATTERNS rt);
             suggestions :=
               suggestions_for
                 (flat_map (signature_hit rt log) (ERROR_PATTERNS rt))
                 (extract_stack_frames rt log);
             stack_frames := extract_stack_frames rt log |}.
Proof.
  intros F P ND.
  assert (U : unwrap_json rt log (py "json") = Ok log).
  { apply unwrap_json_unchanged. right; right. exists v. auto. }
  split; [exact U|]. split; [apply match_signatures_eq|].
  rewrite analyze_error_eq, F. cbn [bind]. rewrite U. reflexivity.
Qed.

End Claims.

(** ** The claims on concrete texts *)

(** C1, as stated, fails: the input is a JSON mapping that holds a
    JavaScript frame in a field the analysis does not read.  The
    input text has one frame; the result has none, because frames are
    taken from the rebuilt text. *)
Lemma frames_not_of_original_text :
  exists r,
    analyze_error ascii_runtime Samples.detail_frame (py "auto") = Ok r
    /\ stack_frames r = []
    /\ extract_stack_frames ascii_runtime Samples.detail_frame
       = [Samples.frame_a]
    /\ stack_frames r
       <> extract_stack_frames ascii_runtime Samples.detail_frame.
Proof.
  exists Samples.detail_analysis.
  repeat split; try (vm_compute; reflexivity). vm_compute. discriminate.
Qed.

Lemma stack_frames_of_analysed_text_witness :
  analyze_error ascii_runtime Samples.detail_frame (py "auto")
  = Ok Samples.detail_analysis
  /\ exists tag text,
       resolve_format ascii_runtime Samples.detail_frame (py "auto") = Ok tag
       /\ unwrap_json ascii_runtime Samples.detail_frame tag = Ok text
       /\ stack_frames Samples.detail_analysis
          = extract_stack_frames ascii_runtime text.
Proof.
  assert (H : analyze_error ascii_runtime Samples.detail_frame (py "auto")
              = Ok Samples.detail_analysis) by (vm_compute; reflexivity).
  split; [exact H|].
  destruct (@stack_frames_of_analysed_text ascii_runtime Samples.detail_frame
              (py "auto") Samples.detail_analysis H)
    as [tag [text [F [U [S _]]]]].
  exists tag, text. repeat split; assumption.
Defined.

(** C2, as stated, fails: the empty text has no error, so the no-match
    sentence precedes the three generic suggestions. *)
Lemma empty_text_has_four_suggestions :
  exists r,
    analyze_error ascii_runtime [] (py "auto") = Ok r
    /\ length (suggestions r) = 4
    /\ hd_error (suggestions r) = Some NO_MATCH_SUGGESTION
    /\ suggestions r <> GENERIC_SUGGESTIONS.
Proof.
  eexists. split; [vm_compute; reflexivity|].
  repeat split; try (vm_compute; reflexivity). vm_compute. discriminate.
Qed.

Lemma suggestions_structure_witness :
  analyze_error ascii_runtime Samples.python_frame_line (py "auto")
  = Ok Samples.frame_line_analysis
  /\ suggestions Samples.frame_line_analysis
     = suggestions_for (errors_found Samples.frame_line_analysis)
         (stack_frames Samples.frame_line_analysis)
  /\ suggestions Samples.frame_line_analysis <> []
  /\ exists before,
       suggestions Samples.frame_line_analysis
       = before
         ++ [ py "Error originated in x.py:3 in function g";
              py "Add logging around the error location for more context";
              py "Check if this error is reproducible consistently";
              py "Review recent code changes that might have caused this" ].
Proof.
  assert (H : analyze_error ascii_runtime Samples.python_frame_line (py "auto")
              = Ok Samples.frame_line_analysis) by (vm_compute; reflexivity).
  split; [exact H|].
  destruct (@suggestions_structure ascii_runtime Samples.python_frame_line
              (py "auto") Samples.frame_line_analysis H)
    as [S [N [_ [_ [_ [_ [_ [L _]]]]]]]].
  split; [exact S|]. split; [exact N|].
  destruct (L Samples.frame_x eq_refl) as [before [E _]].
  exists before. exact E.
Defined.

Lemma http_status_explanation_witness :
  re_search ascii_runtime true (sig_regex (HTTP_SIGNATURE ascii_runtime))
    Samples.http_599
  = Some Samples.http_599_match
  /\ explanation_fn (HTTP_SIGNATURE ascii_runtime) Samples.http_599_match
     = Ok (py "HTTP error 599. Check the API documentation.").
Proof.
  assert (H : re_search ascii_runtime true
                (sig_regex (HTTP_SIGNATURE ascii_runtime)) Samples.http_599
              = Some Samples.http_599_match) by (vm_compute; reflexivity).
  split; [exact H|].
  destruct (@http_status_explanation ascii_runtime Samples.http_599
              Samples.http_599_match H)
    as [_ [code [_ [_ [_ [_ [_ E]]]]]]].
  apply E. vm_compute. reflexivity.
Defined.

Lemma json_non_mapping_unchanged_witness :
  resolve_format ascii_runtime Samples.array (py "auto") = Ok (py "json")
  /\ json_loads ascii_runtime (analyze_depth ascii_runtime) Samples.array
     = Loaded (JList [JInt 1; JInt 2])
  /\ unwrap_json ascii_runtime Samples.array (py "json") = Ok Samples.array
  /\ exists r,
       analyze_error ascii_runtime Samples.array (py "auto") = Ok r
       /\ format_detected r = py "json".
Proof.
  assert (F : resolve_format ascii_runtime Samples.array (py "auto")
              = Ok (py "json")) by (vm_compute; reflexivity).
  assert (P : json_loads ascii_runtime (analyze_depth ascii_runtime)
                Samples.array
              = Loaded (JList [JInt 1; JInt 2]))
    by (vm_compute; reflexivity).
  split; [exact F|]. split; [exact P|].
  destruct (@json_non_mapping_unchanged ascii_runtime Samples.array (py "auto")
              (JList [JInt 1; JInt 2]) F P) as [U [_ A]].
  - intros d E. discriminate.
  - split; [exact U|]. eexists. split; [exact A | reflexivity].
Defined.

(** The JSON scenario of the specification: the mapping is detected as
    json, and the ValueError signature matches the rebuilt text. *)
Lemma json_scenario :
  exists r,
    analyze_error ascii_runtime Samples.boom (py "auto") = Ok r
    /\ format_detected r = py "json"
    /\ map (fun e => (pattern e, matched e)) (errors_found r)
       = [(py "ValueError: (.+)", py "ValueError: bad ")].
Proof.
  eexists. split; [vm_compute; reflexivity|].
  split; vm_compute; reflexivity.
Qed.

(** * Further properties *)

(** ** What the matcher consumes and captures *)

Section CaptureFacts.

Variable rt : runtime.
Variable icase : bool.
Variable A : Type.

(** [star] hands its continuation what is left after a run of
    characters of the class. *)
Lemma star_split (cs : cset) (greedy : bool) (s : pystr)
    (k : pystr -> option A) (a : A) :
  star rt cs greedy s k = Some a ->
  exists run rest,
    s = run ++ rest
    /\ Forall (fun c => in_cset rt cs c = true) run
    /\ k rest = Some a.
Proof.
  induction s as [|x s IH]; simpl; intros H.
  - exists [], []. auto.
  - destruct (in_cset rt cs x) eqn:X.
    + assert (T : star rt cs greedy s k = Some a ->
                  exists run rest, x :: s = run ++ rest
                    /\ Forall (fun c => in_cset rt cs c = true) run
                    /\ k rest = Some a).
      { intros S. destruct (IH S) as [run [rest [E [F K]]]].
        exists (x :: run), rest. rewrite E. auto. }
      destruct greedy.
      * destruct (star rt cs true s k) eqn:E.
        -- inversion H; subst. auto.
        -- exists [], (x :: s). auto.
      * destruct (k (x :: s)) eqn:E.
        -- inversion H; subst. exists [], (x :: s). auto.
        -- auto.
    + exists [], (x :: s). auto.
Qed.

(** When [star] fails, the continuation fails after every run of
    characters of the class. *)
Lemma star_none (cs : cset) (greedy : bool) (k : pystr -> option A) :
  forall run rest,
  star rt cs greedy (run ++ rest) k = None ->
  Forall (fun c => in_cset rt cs c = true) run ->
  k rest = None.
Proof.
  induction run as [|x run IH]; intros rest H F.
  - simpl in H. destruct rest as [|c rest]; simpl in H; [exact H|].
    destruct (in_cset rt cs c); [|exact H].
    destruct greedy.
    + destruct (star rt cs true rest k); [discriminate | exact H].
    + destruct (k (c :: rest)); [discriminate | reflexivity].
  - inversion F as [|? ? X F']; subst. simpl in H. rewrite X in H.
    apply IH; [|exact F'].
    destruct greedy.
    + destruct (star rt cs true (run ++ rest) k); [discriminate | reflexivity].
    + destruct (k (x :: run ++ rest)); [discriminate | exact H].
Qed.

(** A greedy [star] takes the longest run after which the rest of the
    pattern matches. *)
Lemma star_greedy_longest (cs : cset) (s : pystr)
    (k : pystr -> option A) (a : A) :
  star rt cs true s k = Some a ->
  exists run rest,
    s = run ++ rest
    /\ Forall (fun c => in_cset rt cs c = true) run
    /\ k rest = Some a
    /\ forall run' rest',
         s = run' ++ rest' ->
         Forall (fun c => in_cset rt cs c = true) run' ->
         length run < length run' ->
         k rest' = None.
Proof.
  induction s as [|x s IH]; simpl; intros H.
  - exists [], []. repeat split; auto.
    intros run' rest' E _ L. destruct run'; simpl in *; [lia | discriminate].
  - destruct (in_cset rt cs x) eqn:X.
    + destruct (star rt cs true s k) eqn:E.
      * inversion H; subst.
        destruct (IH eq_refl) as [run [rest [S0 [F [K M]]]]].
        exists (x :: run), rest. rewrite S0. repeat split; auto.
        intros run' rest' E' F' L. destruct run' as [|y run'];
          [simpl in L; lia|].
        inversion E'; subst. inversion F' as [|? ? Y F'']; subst.
        apply (M run' rest'); auto. simpl in L; lia.
      * exists [], (x :: s). repeat split; auto.
        intros run' rest' E' F' L. destruct run' as [|y run'];
          [simpl in L; lia|].
        inversion E'; subst. inversion F' as [|? ? Y F'']; subst.
        eapply star_none; eassumption.
    + exists [], (x :: s). repeat split; auto.
      intros run' rest' E' F' L. destruct run' as [|y run'];
        [simpl in L; lia|].
      inversion E'; subst. inversion F' as [|? ? Y F'']; subst. congruence.
Qed.

(** Whatever the matcher returns, its continuation returned on a
    suffix of the text, with the groups outside the expression as they
    were; an expression without groups leaves the groups as they were. *)
Lemma rmatch_at_frame (r : regex) :
  forall (s : pystr) (gs : list (nat * pystr))
         (k : pystr -> list (nat * pystr) -> option A) (a : A),
  rmatch_at rt icase r s gs k = Some a ->
  exists taken s1 g1,
    s = taken ++ s1 /\ k s1 g1 = Some a
    /\ (groups_of r = [] -> g1 = gs)
    /\ (nullable r = false -> taken <> []).
Proof.
  induction r as [c | cs | r1 IH1 r2 IH2 | r1 IH1 r2 IH2 | r1 IH1
                 | greedy cs | j r1 IH1]; intros s gs k a H; simpl in H.
  - destruct s as [|x s]; [discriminate|].
    destruct (char_matches rt icase c x); [|discriminate].
    exists [x], s, gs. repeat split; auto. discriminate.
  - destruct s as [|x s]; [discriminate|].
    destruct (in_cset rt cs x); [|discriminate].
    exists [x], s, gs. repeat split; auto. discriminate.
  - destruct (IH1 _ _ _ _ H) as [t1 [s1 [g1 [E1 [K1 [G1 N1]]]]]].
    destruct (IH2 _ _ _ _ K1) as [t2 [s2 [g2 [E2 [K2 [G2 N2]]]]]].
    exists (t1 ++ t2), s2, g2. rewrite E1, E2, app_assoc.
    repeat split; auto.
    + simpl. intros G. apply app_eq_nil in G. destruct G as [Ga Gb].
      rewrite (G2 Gb). apply G1. exact Ga.
    + simpl. intros N E. apply app_eq_nil in E. destruct E as [-> ->].
      apply andb_false_iff in N.
      destruct N as [N | N]; [apply (N1 N) | apply (N2 N)]; reflexivity.
  - destruct (rmatch_at rt icase r1 s gs k) eqn:E.
    + inversion H; subst.
      destruct (IH1 _ _ _ _ E) as [t [s1 [g1 [E1 [K [G N]]]]]].
      exists t, s1, g1. repeat split; auto.
      * simpl. intros G0. apply app_eq_nil in G0. apply G. tauto.
      * simpl. intros N0. apply orb_false_iff in N0. apply N. tauto.
    + destruct (IH2 _ _ _ _ H) as [t [s1 [g1 [E1 [K [G N]]]]]].
      exists t, s1, g1. repeat split; auto.
      * simpl. intros G0. apply app_eq_nil in G0. apply G. tauto.
      * simpl. intros N0. apply orb_false_iff in N0. apply N. tauto.
  - destruct (rmatch_at rt icase r1 s gs k) eqn:E.
    + inversion H; subst.
      destruct (IH1 _ _ _ _ E) as [t [s1 [g1 [E1 [K [G N]]]]]].
      exists t, s1, g1. repeat split; auto. simpl; discriminate.
    + exists [], s, gs. repeat split; auto. simpl; discriminate.
  - destruct (star_split _ _ _ _ H) as [run [rest [E [F K]]]].
    exists run, rest, gs. repeat split; auto. simpl; discriminate.
  - destruct (IH1 _ _ _ _ H) as [t [s1 [g1 [E1 [K [G N]]]]]].
    eexists t, s1, (_ :: g1). repeat split; [exact E1 | exact K | | exact N].
    simpl; discriminate.
Qed.

(** A component without groups before the rest of a concatenation:
    the rest was matched from some suffix, with the same groups. *)
Lemma rmatch_at_skip (r1 r2 : regex) (s : pystr) (gs : list (nat * pystr))
    (k : pystr -> list (nat * pystr) -> option A) (a : A) :
  groups_of r1 = [] ->
  rmatch_at rt icase (RCat r1 r2) s gs k = Some a ->
  exists taken s1,
    s = taken ++ s1 /\ rmatch_at rt icase r2 s1 gs k = Some a.
Proof.
  intros G H. simpl in H.
  destruct (rmatch_at_frame _ _ _ _ H) as [t [s1 [g1 [E [K [G1 _]]]]]].
  rewrite (G1 G) in K. eauto.
Qed.

(** A capturing group around one or more characters of a class: the
    group holds a non-empty run of the class, and the continuation
    goes on after it. *)
Lemma rmatch_at_group_plus (i : nat) (greedy : bool) (cs : cset) (s : pystr)
    (gs : list (nat * pystr))
    (k : pystr -> list (nat * pystr) -> option A) (a : A) :
  rmatch_at rt icase (RGroup i (RPlus greedy cs)) s gs k = Some a ->
  exists run rest,
    s = run ++ rest /\ run <> []
    /\ Forall (fun c => in_cset rt cs c = true) run
    /\ k rest ((i, run) :: gs) = Some a.
Proof.
  intros H. cbn [rmatch_at RPlus] in H.
  destruct s as [|x s]; [discriminate|].
  destruct (in_cset rt cs x) eqn:X; [|discriminate].
  destruct (star_split _ _ _ _ H) as [run [rest [E [F K]]]].
  exists (x :: run), rest. subst s. repeat split; auto; [discriminate|].
  replace (length (x :: run ++ rest) - length rest) with (length (x :: run))
    in K by (cbn [length]; rewrite length_app; lia).
  change (x :: run ++ rest) with ((x :: run) ++ rest) in K.
  rewrite firstn_app, Nat.sub_diag, firstn_all in K. simpl in K.
  rewrite app_nil_r in K. exact K.
Qed.

End CaptureFacts.

(** ** The shape of extracted frames *)

Section FrameFacts.

Variable rt : runtime.

Lemma rmatch_at_cat_eq (icase : bool) (A : Type) (r1 r2 : regex) (s : pystr)
    (gs : list (nat * pystr))
    (k : pystr -> list (nat * pystr) -> option A) :
  rmatch_at rt icase (RCat r1 r2) s gs k
  = rmatch_at rt icase r1 s gs (fun s1 g1 => rmatch_at rt icase r2 s1 g1 k).
Proof. reflexivity. Qed.

(* Step over a component without groups. *)
Ltac skip_part H :=
  let t := fresh "t" in
  let s := fresh "s" in
  let E := fresh "E" in
  apply rmatch_at_skip in H; [|reflexivity];
  destruct H as [t [s [E H]]].

(* Read a capturing group of one or more characters of a class. *)
Ltac take_group H run :=
  let s := fresh "s" in
  let E := fresh "E" in
  let N := fresh "N" in
  let F := fresh "F" in
  try rewrite rmatch_at_cat_eq in H;
  apply rmatch_at_group_plus in H;
  destruct H as [run [s [E [N [F H]]]]].

(** The groups of a match of the Python frame pattern. *)
Lemma py_pattern_groups (pos : nat) (s : pystr) (m : rmatch) :
  match_here rt false py_pattern pos s = Some m ->
  exists f l fn,
    m_groups m = [(3, fn); (2, l); (1, f)]
    /\ f <> [] /\ Forall (fun c => c <> DQ) f
    /\ l <> [] /\ Forall (fun c => is_digit rt c = true) l
    /\ fn <> [] /\ Forall (fun c => is_word rt c = true) fn.
Proof.
  unfold match_here, py_pattern. cbn [seq]. intros H.
  skip_part H. skip_part H. take_group H f.
  skip_part H. skip_part H. take_group H l.
  skip_part H. take_group H fn.
  inversion H; subst; clear H. cbn [m_groups].
  exists f, l, fn. repeat split; auto.
  eapply Forall_impl; [|eassumption].
  cbn [in_cset existsb]. intros c C ->. discriminate.
Qed.

(** The groups of a match of the JavaScript frame pattern. *)
Lemma js_pattern_groups (pos : nat) (s : pystr) (m : rmatch) :
  match_here rt false js_pattern pos s = Some m ->
  exists fn f l,
    m_groups m = [(3, l); (2, f); (1, fn)]
    /\ fn <> [] /\ Forall (fun c => is_word rt c = true) fn
    /\ f <> [] /\ Forall (fun c => c <> NL) f
    /\ l <> [] /\ Forall (fun c => is_digit rt c = true) l.
Proof.
  unfold match_here, js_pattern. cbn [seq]. intros H.
  skip_part H. take_group H fn.
  skip_part H. skip_part H. take_group H f.
  skip_part H. take_group H l.
  skip_part H. skip_part H.
  assert (G : forall rest gs,
            rmatch_at rt false (lit ")") rest gs
              (fun rest0 gs0 =>
                 Some {| m_start := pos;
                         m_end := pos + (length s - length rest0);
                         m_text := firstn (length s - length rest0) s;
                         m_groups := gs0 |}) = Some m ->
            m_groups m = gs).
  { intros rest gs K.
    destruct (rmatch_at_frame _ _ _ _ _ _ K) as [tk [sk [gk [_ [K1 [G1 _]]]]]].
    rewrite (G1 eq_refl) in K1. inversion K1; reflexivity. }
  apply G in H. exists fn, f, l. repeat split; auto.
  eapply Forall_impl; [|eassumption].
  cbn [in_cset]. intros c C ->. discriminate.
Qed.

Lemma re_finditer_here (r : regex) (s : pystr) (m : rmatch) :
  In m (re_finditer rt r s) ->
  exists pos s', match_here rt false r pos s' = Some m.
Proof.
  intros I. pose proof (finditer_from_bound rt r s 0 0) as F.
  rewrite Forall_forall in F. destruct (F _ I) as [_ [s' W]]. eauto.
Qed.

End FrameFacts.

(** ** Further facts about the analysis *)

Section MoreAnalysisFacts.

Variable rt : runtime.

Lemma dict_get_absent {V : Type} (d : list (pystr * V)) (key : pystr)
    (default : V) :
  ~ In key (map fst d) -> dict_get d key default = default.
Proof.
  induction d as [|[k w] d IH]; simpl; intros NI; [reflexivity|].
  destruct (pystr_eqb k key) eqn:E.
  - apply pystr_eqb_eq in E. exfalso. apply NI. left; exact E.
  - apply IH. intros I. apply NI. right; exact I.
Qed.




(** The patterns of the entries are those of the signatures that
    match, in registry order. *)
Lemma hits_patterns (text : pystr) (sigs : list Signature) :
  (forall sig, In sig sigs -> In sig (ERROR_PATTERNS rt)) ->
  map pattern (flat_map (signature_hit rt text) sigs)
  = map sig_pattern (filter (is_hit rt text) sigs).
Proof.
  induction sigs as [|sig sigs IH]; intros S; [reflexivity|].
  cbn [flat_map filter]. rewrite map_app, IH
    by (intros; apply S; right; assumption).
  pose proof (@signature_hit_cases rt text sig (S _ (or_introl eq_refl))) as C.
  unfold is_hit.
  destruct (re_search rt true (sig_regex sig) text) as [m|].
  - destruct C as [e [_ ->]]. reflexivity.
  - rewrite C. reflexivity.
Qed.

Lemma distinctb_NoDup (l : list pystr) : distinctb l = true -> NoDup l.
Proof.
  induction l as [|x l IH]; simpl; intros D; [constructor|].
  apply andb_true_iff in D. destruct D as [N D].
  constructor; [|auto]. intros I.
  apply negb_true_iff in N.
  assert (E : existsb (pystr_eqb x) l = true).
  { apply existsb_exists. exists x. split; [exact I | apply pystr_eqb_refl]. }
  congruence.
Qed.

Lemma NoDup_map_filter {X Y : Type} (f : X -> Y) (p : X -> bool)
    (l : list X) :
  NoDup (map f l) -> NoDup (map f (filter p l)).
Proof.
  induction l as [|x l IH]; simpl; intros N; [constructor|].
  inversion N as [|? ? NI N']; subst.
  destruct (p x); [|auto]. simpl. constructor; [|auto].
  intros I. apply NI. apply in_map_iff in I. destruct I as [y [E I]].
  apply filter_In in I. apply in_map_iff. exists y. tauto.
Qed.

(** A match of an expression that cannot match the empty text is a
    non-empty part of the text it was found in. *)
Lemma re_search_part (icase : bool) (r : regex) (text : pystr) (m : rmatch) :
  re_search rt icase r text = Some m ->
  text = firstn (m_start m) text ++ m_text m ++ skipn (m_end m) text
  /\ (nullable r = false -> m_text m <> []).
Proof.
  intros H. destruct (@re_search_leftmost rt _ _ _ _ H) as [L [M _]].
  unfold match_here in M.
  destruct (rmatch_at_frame _ _ _ _ _ _ M) as [taken [s1 [g1 [E [K [_ N]]]]]].
  inversion K as [K']; clear K. cbn [m_start m_end m_text].
  assert (T : firstn (length (skipn (m_start m) text) - length s1)
                (skipn (m_start m) text) = taken).
  { rewrite E, length_app, Nat.add_sub, firstn_app, Nat.sub_diag, firstn_all.
    simpl. apply app_nil_r. }
  rewrite T. split; [|exact N].
  replace (skipn (m_start m + (length (skipn (m_start m) text) - length s1)) text)
    with s1.
  - rewrite <- E. symmetry. apply firstn_skipn.
  - rewrite Nat.add_comm, <- skipn_skipn, E, length_app, Nat.add_sub.
    rewrite skipn_app, Nat.sub_diag, skipn_all. reflexivity.
Qed.

End MoreAnalysisFacts.

(** ** Further properties of the program *)

Section MoreProperties.

Variable rt : runtime.



(** X3: under json, a mapping that has none of the fields message,
    error and stack is analysed as two blanks: whatever its other
    fields hold, no error and no frame is found. *)
Theorem json_mapping_other_fields_ignored (log log_format : pystr)
    (d : list (pystr * json)) :
  resolve_format rt log log_format = Ok (py "json") ->
  json_loads rt (analyze_depth rt) log = Loaded (JDict d) ->
  ~ In (py "message") (map fst d) ->
  ~ In (py "error") (map fst d) ->
  ~ In (py "stack") (map fst d) ->
  unwrap_json rt log (py "json") = Ok (py "  ")
  /\ analyze_error rt log log_format
     = Ok {| format_detected := py "json";
             errors_found := [];
             suggestions := NO_MATCH_SUGGESTION :: GENERIC_SUGGESTIONS;
             stack_frames := [] |}.
Proof.
  intros F P NM NE NS.
  assert (U : unwrap_json rt log (py "json") = Ok (py "  ")).
  { unfold unwrap_json. rewrite pystr_eqb_refl, P.
    rewrite !dict_get_absent by assumption. reflexivity. }
  split; [exact U|].
  rewrite analyze_error_eq, F. cbn [bind]. rewrite U. vm_compute. reflexivity.
Qed.

(** X4: the entries of [errors_found] carry the patterns of the
    signatures that match the analysed text, in registry order: no
    pattern twice, at most nineteen entries; each matched text is a
    non-empty contiguous part of the analysed text. *)
Theorem errors_found_entries (log log_format tag text : pystr)
    (r : Analysis) :
  analyze_error rt log log_format = Ok r ->
  resolve_format rt log log_format = Ok tag ->
  unwrap_json rt log tag = Ok text ->
  map pattern (errors_found r)
  = map sig_pattern (filter (is_hit rt text) (ERROR_PATTERNS rt))
  /\ NoDup (map pattern (errors_found r))
  /\ length (errors_found r) <= 19
  /\ Forall (fun e => matched e <> [] /\ occurs_in (matched e) text)
       (errors_found r).
Proof.
  intros H F U. rewrite analyze_error_eq, F in H. cbn [bind] in H.
  rewrite U in H. cbn [bind] in H.
  assert (R : errors_found r
              = flat_map (signature_hit rt text) (ERROR_PATTERNS rt))
    by (injection H as <-; reflexivity).
  rewrite R. clear H R.
  assert (P : map pattern (flat_map (signature_hit rt text) (ERROR_PATTERNS rt))
              = map sig_pattern (filter (is_hit rt text) (ERROR_PATTERNS rt)))
    by (apply hits_patterns; auto).
  split; [exact P|]. split; [|split].
  - rewrite P. apply NoDup_map_filter. apply distinctb_NoDup.
    vm_compute. reflexivity.
  - rewrite <- (length_map pattern), P, length_map.
    eapply Nat.le_trans; [apply filter_length_le|].
    vm_compute. apply le_n.
  - apply Forall_forall. intros e I. apply in_flat_map in I.
    destruct I as [sig [IS IH]].
    pose proof (@signature_hit_cases rt text sig IS) as C.
    destruct (re_search rt true (sig_regex sig) text) as [m|] eqn:E.
    + destruct C as [x [_ C]]. rewrite C in IH.
      destruct IH as [<- | []]. cbn [matched].
      destruct (re_search_part rt _ _ _ E) as [T N]. split.
      * apply N.
        assert (A : forallb (fun sg => negb (nullable (sig_regex sg)))
                      (ERROR_PATTERNS rt) = true) by (vm_compute; reflexivity).
        rewrite forallb_forall in A. apply negb_true_iff. apply A. exact IS.
      * eexists _, _. exact T.
    + rewrite C in IH. destruct IH.
Qed.

(** X5: no error is reported exactly when no signature matches
    anywhere in the analysed text. *)
Theorem no_errors_iff_no_match (log log_format tag text : pystr)
    (r : Analysis) :
  analyze_error rt log log_format = Ok r ->
  resolve_format rt log log_format = Ok tag ->
  unwrap_json rt log tag = Ok text ->
  (errors_found r = [] <->
   forall sig, In sig (ERROR_PATTERNS rt) ->
               ~ matches_somewhere rt true (sig_regex sig) text).
Proof.
  intros H F U. rewrite analyze_error_eq, F in H. cbn [bind] in H.
  rewrite U in H. cbn [bind] in H.
  assert (R : errors_found r
              = flat_map (signature_hit rt text) (ERROR_PATTERNS rt))
    by (injection H as <-; reflexivity).
  rewrite R. clear H R. split.
  - intros E sig IS M. apply re_search_somewhere in M.
    pose proof (@signature_hit_cases rt text sig IS) as C.
    destruct (re_search rt true (sig_regex sig) text) as [m|]; [|congruence].
    destruct C as [x [_ C]].
    assert (I : In {| pattern := sig_pattern sig; matched := m_text m;
                      explanation := x |}
                  (flat_map (signature_hit rt text) (ERROR_PATTERNS rt))).
    { apply in_flat_map. exists sig. split; [exact IS|].
      rewrite C. left; reflexivity. }
    rewrite E in I. destruct I.
  - intros NM.
    destruct (flat_map (signature_hit rt text) (ERROR_PATTERNS rt))
      as [|e l] eqn:E; [reflexivity|]. exfalso.
    assert (I : In e (flat_map (signature_hit rt text) (ERROR_PATTERNS rt)))
      by (rewrite E; left; reflexivity).
    apply in_flat_map in I. destruct I as [sig [IS IH]].
    apply (NM sig IS). apply re_search_somewhere.
    unfold signature_hit in IH.
    destruct (re_search rt true (sig_regex sig) text); [discriminate|].
    destruct IH.
Qed.

(** X6: every extracted frame has a non-empty file, a non-empty line
    made of decimal digits and a non-empty function made of word
    characters; the file of a Python frame holds no double quote and
    the file of a JavaScript frame no newline. *)
Theorem frames_well_formed (log : pystr) :
  Forall
    (fun f =>
       file f <> []
       /\ line f <> [] /\ Forall (fun c => is_digit rt c = true) (line f)
       /\ function f <> []
       /\ Forall (fun c => is_word rt c = true) (function f))
    (extract_stack_frames rt log)
  /\ Forall (fun f => Forall (fun c => c <> DQ) (file f))
       (map py_frame (re_finditer rt py_pattern log))
  /\ Forall (fun f => Forall (fun c => c <> NL) (file f))
       (map js_frame (re_finditer rt js_pattern log)).
Proof.
  rewrite extract_stack_frames_eq.
  assert (P : forall m, In m (re_finditer rt py_pattern log) ->
              exists f l fn,
                py_frame m = {| file := f; line := l; function := fn |}
                /\ f <> [] /\ Forall (fun c => c <> DQ) f
                /\ l <> [] /\ Forall (fun c => is_digit rt c = true) l
                /\ fn <> [] /\ Forall (fun c => is_word rt c = true) fn).
  { intros m I. destruct (re_finditer_here rt _ _ _ I) as [pos [s' M]].
    destruct (py_pattern_groups rt _ _ M) as [f [l [fn [G R]]]].
    exists f, l, fn. split; [|exact R].
    unfold py_frame, group_str, group. rewrite G. reflexivity. }
  assert (J : forall m, In m (re_finditer rt js_pattern log) ->
              exists fn f l,
                js_frame m = {| file := f; line := l; function := fn |}
                /\ fn <> [] /\ Forall (fun c => is_word rt c = true) fn
                /\ f <> [] /\ Forall (fun c => c <> NL) f
                /\ l <> [] /\ Forall (fun c => is_digit rt c = true) l).
  { intros m I. destruct (re_finditer_here rt _ _ _ I) as [pos [s' M]].
    destruct (js_pattern_groups rt _ _ M) as [fn [f [l [G R]]]].
    exists fn, f, l. split; [|exact R].
    unfold js_frame, group_str, group. rewrite G. reflexivity. }
  split; [|split].
  - apply Forall_app. split; apply Forall_map, Forall_forall; intros m I.
    + destruct (P m I) as [f [l [fn [-> R]]]]. cbn. tauto.
    + destruct (J m I) as [fn [f [l [-> R]]]]. cbn. tauto.
  - apply Forall_map, Forall_forall. intros m I.
    destruct (P m I) as [f [l [fn [-> R]]]]. cbn. tauto.
  - apply Forall_map, Forall_forall. intros m I.
    destruct (J m I) as [fn [f [l [-> R]]]]. cbn. tauto.
Qed.

End MoreProperties.

Section LastDigitsAndExecute.

Variable rt : runtime.

Lemma is_digit_not_newline (c : N) : is_digit rt c = true -> c <> NL.
Proof. intros D ->. vm_compute in D. discriminate. Qed.

(** X7: the HTTP signature explains the last run of three digits on
    the line of the error: the captured digits end the matched text,
    and from the second captured digit to the end of the line no three
    decimal digits stand in a row. *)
Theorem http_explains_last_digits (text : pystr) (m : rmatch) :
  re_search rt true (sig_regex (HTTP_SIGNATURE rt)) text = Some m ->
  exists d1 d2 d3 before,
    group_str m 1 = [d1; d2; d3]
    /\ m_text m = before ++ [d1; d2; d3]
    /\ forall gap e1 e2 e3 rest,
         [d2; d3] ++ skipn (m_end m) text = gap ++ e1 :: e2 :: e3 :: rest ->
         Forall (fun c => c <> NL) gap ->
         ~ (is_digit rt e1 = true /\ is_digit rt e2 = true
            /\ is_digit rt e3 = true).
Proof.
  intros H.
  destruct (re_search_part rt _ _ _ H) as [T _].
  destruct (@re_search_leftmost rt _ _ _ _ H) as [_ [M _]].
  change (sig_regex (HTTP_SIGNATURE rt))
    with (RCat (ROpt (lit "requests.exceptions."))
            (RCat (lit "HTTPError") (RCat any0 (RGroup 1 digit3)))) in M.
  unfold match_here in M.
  set (s := skipn (m_start m) text) in *.
  apply rmatch_at_skip in M; [|reflexivity]. destruct M as [t1 [s1 [E1 M]]].
  apply rmatch_at_skip in M; [|reflexivity]. destruct M as [t2 [s2 [E2 M]]].
  rewrite rmatch_at_cat_eq in M.
  change (star rt CAny true s2
            (fun s3 =>
               rmatch_at rt true (RGroup 1 digit3) s3 []
                 (fun rest gs =>
                    Some {| m_start := m_start m;
                            m_end := m_start m + (length s - length rest);
                            m_text := firstn (length s - length rest) s;
                            m_groups := gs |})) = Some m) in M.
  apply star_greedy_longest in M.
  destruct M as [run [rest [E3 [F [K L]]]]].
  cbn [rmatch_at digit3 seq in_cset] in K.
  destruct rest as [|d1 rest]; [discriminate|].
  destruct (is_digit rt d1) eqn:D1; [|discriminate].
  destruct rest as [|d2 rest]; [discriminate|].
  destruct (is_digit rt d2) eqn:D2; [|discriminate].
  destruct rest as [|d3 rest]; [discriminate|].
  destruct (is_digit rt d3) eqn:D3; [|discriminate].
  replace (length (d1 :: d2 :: d3 :: rest) - length rest) with 3 in K
    by (cbn [length]; lia).
  cbn [firstn] in K.
  assert (S0 : s = (t1 ++ t2 ++ run ++ [d1; d2; d3]) ++ rest).
  { rewrite E1, E2, E3, <- !app_assoc. reflexivity. }
  assert (N0 : length s - length rest = length (t1 ++ t2 ++ run ++ [d1; d2; d3])).
  { rewrite S0 at 1. rewrite length_app. lia. }
  rewrite N0 in K.
  assert (X : firstn (length (t1 ++ t2 ++ run ++ [d1; d2; d3])) s
              = t1 ++ t2 ++ run ++ [d1; d2; d3]).
  { rewrite S0, firstn_app, Nat.sub_diag, firstn_all. simpl.
    apply app_nil_r. }
  rewrite X in K.
  assert (G : m_groups m = [(1, [d1; d2; d3])]
              /\ m_text m = t1 ++ t2 ++ run ++ [d1; d2; d3]
              /\ m_end m = m_start m + length (t1 ++ t2 ++ run ++ [d1; d2; d3])).
  { injection K as <-. auto. }
  destruct G as [G1 [G2 G3]].
  exists d1, d2, d3, (t1 ++ t2 ++ run). split; [|split].
  - unfold group_str, group. rewrite G1. reflexivity.
  - rewrite G2, <- !app_assoc. reflexivity.
  - intros gap e1 e2 e3 tail E FG [X1 [X2 X3]].
    assert (R : skipn (m_end m) text = rest).
    { rewrite G3, Nat.add_comm, <- skipn_skipn. fold s.
      rewrite S0, skipn_app, Nat.sub_diag, skipn_all. reflexivity. }
    rewrite R in E.
    assert (Z : rmatch_at rt true (RGroup 1 digit3) (e1 :: e2 :: e3 :: tail) []
                  (fun rest0 gs =>
                     Some {| m_start := m_start m;
                             m_end := m_start m + (length s - length rest0);
                             m_text := firstn (length s - length rest0) s;
                             m_groups := gs |}) = None).
    { apply (L (run ++ d1 :: gap)).
      - rewrite E3, <- app_assoc. cbn [app] in *. rewrite <- E. reflexivity.
      - apply Forall_app. split; [exact F|]. constructor.
        + cbn [in_cset]. apply negb_true_iff, N.eqb_neq.
          apply is_digit_not_newline. exact D1.
        + eapply Forall_impl; [|exact FG]. intros c C. cbn [in_cset].
          apply negb_true_iff, N.eqb_neq. exact C.
      - rewrite length_app. cbn [length]. lia. }
    cbn [rmatch_at digit3 seq in_cset] in Z.
    rewrite X1, X2, X3 in Z. discriminate.
Qed.


End LastDigitsAndExecute.

(** ** Matching ignores the case of ASCII letters *)

Section CaseFacts.

Variable rt : runtime.

Lemma upper_range (x : N) :
  is_ascii_upper x = true -> (65 <= x /\ x <= 90)%N.
Proof.
  unfold is_ascii_upper, between. intros H.
  apply andb_true_iff in H. destruct H as [A B].
  apply N.leb_le in A. apply N.leb_le in B. auto.
Qed.

Lemma upper_facts (x : N) :
  is_ascii_upper x = true ->
  is_ascii x = true /\ is_ascii (x + 32) = true
  /\ is_ascii_upper (x + 32) = false
  /\ is_ascii_lower x = false /\ is_ascii_lower (x + 32) = true
  /\ is_ascii_digit x = false /\ is_ascii_digit (x + 32) = false
  /\ x <> NL /\ (x + 32)%N <> NL.
Proof.
  intros H. apply upper_range in H. destruct H as [A B].
  unfold is_ascii, is_ascii_upper, is_ascii_lower, is_ascii_digit, between, NL.
  repeat split;
    try (apply N.ltb_lt; lia);
    try (apply andb_true_iff; split; apply N.leb_le; lia);
    try (apply andb_false_iff;
         first [left; apply N.leb_gt; lia | right; apply N.leb_gt; lia]);
    try lia.
Qed.

Lemma same_letter_lower (x y : N) :
  same_letter x y -> to_lower rt x = to_lower rt y.
Proof.
  unfold to_lower.
  intros [-> | [[U ->] | [U ->]]]; [reflexivity| |];
    pose proof (upper_facts _ U) as [A [B [C _]]];
    rewrite A, B, U, C; reflexivity.
Qed.

Lemma same_letter_alpha (x y : N) :
  same_letter x y -> x <> y ->
  is_ascii_alpha x = true /\ is_ascii_alpha y = true.
Proof.
  unfold is_ascii_alpha.
  intros [-> | [[U ->] | [U ->]]] NE; [congruence| |];
    pose proof (upper_facts _ U) as [_ [_ [_ [_ [L _]]]]];
    rewrite U, L; split; [reflexivity | apply orb_true_r | apply orb_true_r
                         | reflexivity].
Qed.

Lemma same_letter_char (c x y : N) :
  same_letter x y -> char_matches rt true c x = char_matches rt true c y.
Proof.
  intros S. unfold char_matches.
  destruct (true && is_ascii_alpha c) eqn:A.
  - rewrite (same_letter_lower S). reflexivity.
  - destruct (N.eq_dec x y) as [-> | NE]; [reflexivity|].
    destruct (same_letter_alpha S NE) as [AX AY]. cbn [andb] in A.
    assert (NX : N.eqb c x = false)
      by (apply N.eqb_neq; intros ->; congruence).
    assert (NY : N.eqb c y = false)
      by (apply N.eqb_neq; intros ->; congruence).
    rewrite NX, NY. reflexivity.
Qed.

Lemma same_letter_cset (cs : cset) (x y : N) :
  case_free_cset cs = true -> same_letter x y ->
  in_cset rt cs x = in_cset rt cs y.
Proof.
  intros CF S. destruct (N.eq_dec x y) as [-> | NE]; [reflexivity|].
  destruct (same_letter_alpha S NE) as [AX AY].
  assert (L : forall l z, forallb (fun c => negb (is_ascii_alpha c)) l = true ->
                          is_ascii_alpha z = true ->
                          existsb (N.eqb z) l = false).
  { clear. induction l as [|c l IH]; intros z F Z; [reflexivity|].
    simpl in F. apply andb_true_iff in F. destruct F as [F1 F2].
    simpl. rewrite (IH z F2 Z), orb_false_r.
    apply N.eqb_neq. intros ->. rewrite Z in F1. discriminate. }
  assert (W : forall z, is_ascii_alpha z = true ->
                        z <> NL /\ is_word rt z = true
                        /\ is_digit rt z = false).
  { clear. intros z Z. unfold is_ascii_alpha in Z.
    unfold is_word, is_digit, is_ascii_alpha.
    apply orb_true_iff in Z.
    assert (R : (65 <= z /\ z <= 122)%N /\ is_ascii_digit z = false).
    { unfold is_ascii_upper, is_ascii_lower, is_ascii_digit, between in *.
      destruct Z as [Z | Z]; apply andb_true_iff in Z; destruct Z as [A B];
        apply N.leb_le in A; apply N.leb_le in B;
        (split; [lia|]); apply andb_false_iff; right; apply N.leb_gt; lia. }
    destruct R as [[A B] D].
    assert (I : is_ascii z = true) by (apply N.ltb_lt; lia).
    rewrite I, D. repeat split.
    - unfold NL. lia.
    - destruct Z as [-> | ->]; [reflexivity|].
      rewrite orb_true_r. reflexivity. }
  destruct (W x AX) as [X1 [X2 X3]]. destruct (W y AY) as [Y1 [Y2 Y3]].
  destruct cs as [| | |l|l]; cbn [in_cset case_free_cset] in *.
  - apply N.eqb_neq in X1. apply N.eqb_neq in Y1. rewrite X1, Y1. reflexivity.
  - congruence.
  - congruence.
  - rewrite (L l x CF AX), (L l y CF AY). reflexivity.
  - rewrite (L l x CF AX), (L l y CF AY). reflexivity.
Qed.

Lemma orelse_none {X Y : Type} (x y : option X) (x' y' : option Y) :
  (x = None <-> x' = None) -> (y = None <-> y' = None) ->
  (match x with Some a => Some a | None => y end = None
   <-> match x' with Some a => Some a | None => y' end = None).
Proof.
  intros [P1 P2] Q. destruct x, x'; try exact Q.
  - split; discriminate.
  - discriminate (P2 eq_refl).
  - discriminate (P1 eq_refl).
Qed.

Section Simulation.

Variable A B : Type.

Lemma same_case_star (cs : cset) (greedy : bool) :
  case_free_cset cs = true ->
  forall (s t : pystr) (k : pystr -> option A) (k' : pystr -> option B),
  same_up_to_case s t ->
  (forall a b, same_up_to_case a b -> (k a = None <-> k' b = None)) ->
  (star rt cs greedy s k = None <-> star rt cs greedy t k' = None).
Proof.
  intros CF s t k k' S. revert k k'.
  induction S as [|x y s t XY S IH]; intros k k' K.
  - simpl. apply K. constructor.
  - assert (KH : k (x :: s) = None <-> k' (y :: t) = None)
      by (apply K; constructor; assumption).
    specialize (IH k k' K).
    simpl. rewrite (same_letter_cset _ CF XY).
    destruct (in_cset rt cs y); [|exact KH].
    destruct greedy.
    + apply orelse_none; [exact IH | exact KH].
    + apply orelse_none; [exact KH | exact IH].
Qed.

(** On two texts that differ only in the case of ASCII letters the
    matcher fails on both or on neither. *)
Lemma same_case_rmatch_at (r : regex) :
  case_free r = true ->
  forall (s t : pystr) (gs gt : list (nat * pystr))
         (k : pystr -> list (nat * pystr) -> option A)
         (k' : pystr -> list (nat * pystr) -> option B),
  same_up_to_case s t ->
  (forall a b g h, same_up_to_case a b -> (k a g = None <-> k' b h = None)) ->
  (rmatch_at rt true r s gs k = None <-> rmatch_at rt true r t gt k' = None).
Proof.
  induction r as [c | cs | r1 IH1 r2 IH2 | r1 IH1 r2 IH2 | r1 IH1
                 | greedy cs | j r1 IH1]; intros CF s t gs gt k k' S K;
    cbn [case_free] in CF; cbn [rmatch_at].
  - destruct S as [|x y s t XY S]; [tauto|].
    rewrite (same_letter_char c XY).
    destruct (char_matches rt true c y); [apply K; exact S | tauto].
  - destruct S as [|x y s t XY S]; [tauto|].
    rewrite (same_letter_cset _ CF XY).
    destruct (in_cset rt cs y); [apply K; exact S | tauto].
  - apply andb_true_iff in CF. destruct CF as [C1 C2].
    apply IH1; [exact C1 | exact S|].
    intros a b g h AB. apply IH2; assumption.
  - apply andb_true_iff in CF. destruct CF as [C1 C2].
    apply orelse_none; [apply IH1 | apply IH2]; assumption.
  - apply orelse_none; [apply IH1 | apply K]; assumption.
  - apply same_case_star; [exact CF | exact S|].
    intros a b AB. apply K. exact AB.
  - apply IH1; [exact CF | exact S|].
    intros a b g h AB. apply K. exact AB.
Qed.

End Simulation.

Lemma same_case_search (r : regex) :
  case_free r = true ->
  forall (s t : pystr) (p q : nat),
  same_up_to_case s t ->
  (search_from rt true r p s = None <-> search_from rt true r q t = None).
Proof.
  intros CF s t p q S. revert p q.
  assert (H : forall a b p q, same_up_to_case a b ->
                (match_here rt true r p a = None
                 <-> match_here rt true r q b = None)).
  { intros a b p q AB. unfold match_here.
    apply same_case_rmatch_at; [exact CF | exact AB|].
    intros; split; discriminate. }
  induction S as [|x y s t XY S IH]; intros p q.
  - simpl. apply orelse_none; [apply H; constructor | tauto].
  - simpl. apply orelse_none; [apply H; constructor; assumption | apply IH].
Qed.

Lemma same_case_is_hit (s t : pystr) (sig : Signature) :
  In sig (ERROR_PATTERNS rt) -> same_up_to_case s t ->
  is_hit rt s sig = is_hit rt t sig.
Proof.
  intros I S.
  assert (CF : forallb (fun sg => case_free (sig_regex sg)) (ERROR_PATTERNS rt)
               = true) by (vm_compute; reflexivity).
  rewrite forallb_forall in CF. specialize (CF _ I).
  pose proof (same_case_search _ CF 0 0 S) as [P1 P2].
  unfold is_hit, re_search.
  destruct (search_from rt true (sig_regex sig) 0 s),
           (search_from rt true (sig_regex sig) 0 t); try reflexivity.
  - discriminate (P2 eq_refl).
  - discriminate (P1 eq_refl).
Qed.

(** X9: two texts that differ only in the case of ASCII letters
    trigger the same signatures: their entries carry the same patterns,
    in the same order. *)
Theorem matching_ignores_case (s t : pystr) :
  same_up_to_case s t ->
  map pattern (flat_map (signature_hit rt s) (ERROR_PATTERNS rt))
  = map pattern (flat_map (signature_hit rt t) (ERROR_PATTERNS rt)).
Proof.
  intros S. rewrite !hits_patterns by auto. f_equal.
  apply filter_ext_in. intros sig I. apply same_case_is_hit; assumption.
Qed.

End CaseFacts.

(** ** The matching phase *)

Section MatchingPhase.

Variable rt : runtime.

(** C5: for every text the matching phase makes one case-insensitive
    leftmost search per signature, in registry order, and gathers one
    entry (pattern text, matched text, explanation) for each signature
    that matches; it never stops early and no explanation producer fails.
    The entries of [errors_found] are these, for the text the analysis
    settled on.  The search ignores the case of ASCII letters: a text
    that differs from another in case only triggers the same signatures,
    and the matched text is reported in the case of the text.  A text
    may yield no entry, one, or several, and two signatures may match
    overlapping parts of it. *)
Theorem errors_found_per_signature (text : pystr) :
  match_signatures rt text
  = Ok (flat_map (signature_hit rt text) (ERROR_PATTERNS rt))
  /\ Forall
       (fun sig =>
          match re_search rt true (sig_regex sig) text with
          | Some m =>
              (exists e,
                  explanation_fn sig m = Ok e
                  /\ signature_hit rt text sig
                     = [{| pattern := sig_pattern sig; matched := m_text m;
                           explanation := e |}])
              /\ m_start m <= length text
              /\ m_text m = firstn (m_end m - m_start m)
                              (skipn (m_start m) text)
              /\ forall j, j < m_start m ->
                   match_here rt true (sig_regex sig) j (skipn j text) = None
          | None => signature_hit rt text sig = []
          end)
       (ERROR_PATTERNS rt)
  /\ (forall log log_format tag r,
        analyze_error rt log log_format = Ok r ->
        resolve_format rt log log_format = Ok tag ->
        unwrap_json rt log tag = Ok text ->
        errors_found r = flat_map (signature_hit rt text) (ERROR_PATTERNS rt))
  /\ (forall other,
        same_up_to_case text other ->
        map pattern (flat_map (signature_hit rt other) (ERROR_PATTERNS rt))
        = map pattern (flat_map (signature_hit rt text) (ERROR_PATTERNS rt)))
  /\ flat_map (signature_hit rt MoreSamples.upper_key_error) (ERROR_PATTERNS rt)
     = [{| pattern := py "KeyError: ['\" ++ [DQ] ++ py "]?(\w+)['\" ++ [DQ]
                      ++ py "]?";
           matched := py "KEYERROR: 'USER_ID'";
           explanation :=
             py "Dictionary key 'USER_ID' not found. Use .get() for safe access or check if key exists." |}]
  /\ map (fun e => (pattern e, matched e))
       (flat_map (signature_hit rt (py "file: valueerror: Bad"))
          (ERROR_PATTERNS rt))
     = [(py "ValueError: (.+)", py "valueerror: Bad")]
  /\ flat_map (signature_hit rt Samples.no_error) (ERROR_PATTERNS rt) = []
  /\ analyze_error rt Samples.key_error (py "auto")
     = Ok Samples.key_error_analysis
  /\ map (fun e => (pattern e, matched e))
       (flat_map (signature_hit rt Samples.value_key_error) (ERROR_PATTERNS rt))
     = [ (py "KeyError: ['\" ++ [DQ] ++ py "]?(\w+)['\" ++ [DQ] ++ py "]?",
          py "KeyError: 'x'");
         (py "ValueError: (.+)", py "ValueError: KeyError: 'x'") ].
Proof.
  split; [apply match_signatures_eq|].
  split; [|split; [|split; [|repeat split; vm_compute; reflexivity]]].
  - apply Forall_forall. intros sig I.
    pose proof (@signature_hit_cases rt text sig I) as C.
    destruct (re_search rt true (sig_regex sig) text) as [m|] eqn:E;
      [|exact C].
    split; [exact C|].
    destruct (@re_search_leftmost rt _ _ _ _ E) as [L [M F]].
    destruct (@match_here_inv rt _ _ _ _ _ M) as [S0 [_ [_ [T _]]]].
    auto.
  - intros log log_format tag r H F U. rewrite analyze_error_eq, F in H.
    cbn [bind] in H. rewrite U in H. cbn [bind] in H.
    injection H as <-. reflexivity.
  - intros other S. rewrite !hits_patterns by auto. f_equal.
    apply filter_ext_in. intros sig I. symmetry.
    apply same_case_is_hit; assumption.
Qed.

End MatchingPhase.

(** ** The report of an analysis *)

Section ReportFacts.

Variable rt : runtime.

Lemma join_app (sep : pystr) (l1 l2 : list pystr) :
  l1 <> [] -> l2 <> [] ->
  join sep (l1 ++ l2) = join sep l1 ++ sep ++ join sep l2.
Proof.
  intros N1 N2. induction l1 as [|x l1 IH]; [congruence|].
  destruct l1 as [|y l1].
  - destruct l2 as [|z l2]; [congruence|]. reflexivity.
  - change (join sep ((x :: y :: l1) ++ l2))
      with (x ++ sep ++ join sep ((y :: l1) ++ l2)).
    rewrite IH by discriminate.
    change (join sep (x :: y :: l1)) with (x ++ sep ++ join sep (y :: l1)).
    rewrite <- !app_assoc. reflexivity.
Qed.

(** The lines of a report that has suggestions. *)
Lemma format_analysis_lines (a : Analysis) :
  suggestions a <> [] ->
  format_analysis a
  = join [NL]
      (([py "# Error Analysis Report"; [];
         py "**Log Format:** " ++ format_detected a]
        ++ [[]]
        ++ match errors_found a with
           | [] => []
           | _ :: _ =>
               [py "## Errors Identified"; []]
               ++ format_errors 1 (errors_found a)
           end
        ++ match stack_frames a with
           | [] => []
           | _ :: _ =>
               [py "## Stack Trace"; []]
               ++ map format_frame (firstn 10 (stack_frames a)) ++ [[]]
           end)
       ++ [py "## Suggestions"; []]
       ++ map (fun s => py "- " ++ s) (suggestions a)).
Proof.
  destruct a as [tag found sg frames]. unfold format_analysis.
  cbn [format_detected errors_found suggestions stack_frames].
  intros N. destruct sg as [|s0 sl]; [congruence|]. cbv zeta. f_equal.
  destruct found, frames; cbn [app]; rewrite ?app_nil_r, <- ?app_assoc;
    reflexivity.
Qed.

(** X10: the report of every analysis that [analyze_error] returns
    begins with the title and the format line, has a Suggestions
    section that lists every suggestion, and ends with the three
    generic suggestions. *)
Theorem report_frame (log log_format : pystr) (a : Analysis) :
  analyze_error rt log log_format = Ok a ->
  (exists middle,
      format_analysis a
      = py "# Error Analysis Report" ++ [NL; NL]
        ++ py "**Log Format:** " ++ format_detected a ++ [NL]
        ++ middle ++ [NL]
        ++ py "## Suggestions" ++ [NL; NL]
        ++ join [NL] (map (fun s => py "- " ++ s) (suggestions a)))
  /\ exists body,
       format_analysis a
       = body ++ join [NL] (map (fun s => py "- " ++ s) GENERIC_SUGGESTIONS).
Proof.
  intros H.
  assert (S0 : exists before, suggestions a = before ++ GENERIC_SUGGESTIONS).
  { destruct (analyze_error_ok rt _ _ H) as [tag [text [_ [_ ->]]]].
    cbn [analysis_of suggestions]. unfold suggestions_for. eexists.
    rewrite app_assoc. reflexivity. }
  clear H. destruct S0 as [before S0].
  assert (SN : suggestions a <> []).
  { rewrite S0. unfold GENERIC_SUGGESTIONS. destruct before; discriminate. }
  rewrite (format_analysis_lines a SN).
  set (head3 := [py "# Error Analysis Report"; [];
                 py "**Log Format:** " ++ format_detected a]).
  match goal with |- context [head3 ++ ?r] => set (rest := r) end.
  set (bullets := map (fun s => py "- " ++ s) (suggestions a)).
  assert (BN : bullets <> []).
  { unfold bullets. destruct (suggestions a); [congruence | discriminate]. }
  split.
  - exists (join [NL] rest).
    rewrite join_app; [|discriminate|discriminate].
    rewrite (@join_app [NL] head3 rest); [|discriminate|discriminate].
    destruct bullets as [|b0 bl]; [congruence|].
    unfold head3. cbn [join app]. rewrite <- !app_assoc. reflexivity.
  - unfold bullets. rewrite S0, map_app, !app_assoc.
    rewrite join_app.
    + rewrite app_assoc. eexists. reflexivity.
    + rewrite <- !app_assoc. discriminate.
    + discriminate.
Qed.

End ReportFacts.

(** ** Migration file names *)

Section MigrationFacts.

Variable rt : runtime.

Lemma drop_run_length (p : N -> bool) (s : pystr) :
  length (drop_run p s) <= length s.
Proof.
  induction s as [|c s IH]; simpl; [lia|].
  destruct (p c); simpl; lia.
Qed.

Lemma drop_run_skipn (p : N -> bool) (s : pystr) :
  skipn (length s - length (drop_run p s)) s = drop_run p s.
Proof.
  induction s as [|c s IH]; [reflexivity|]. simpl drop_run.
  destruct (p c).
  - pose proof (drop_run_length p s).
    replace (length (c :: s) - length (drop_run p s))
      with (S (length s - length (drop_run p s))) by (cbn [length]; lia).
    exact IH.
  - rewrite Nat.sub_diag. reflexivity.
Qed.

(** A greedy [star] whose continuation always succeeds takes the
    whole run. *)
Lemma star_total (A : Type) (cs : cset) (f : pystr -> A) (s : pystr) :
  star rt cs true s (fun rest => Some (f rest))
  = Some (f (drop_run (in_cset rt cs) s)).
Proof.
  induction s as [|c s IH]; [reflexivity|]. simpl.
  destruct (in_cset rt cs c); [|reflexivity]. rewrite IH. reflexivity.
Qed.

Lemma match_here_plus (cs : cset) (pos : nat) (s : pystr) :
  match_here rt false (RPlus true cs) pos s
  = match s with
    | [] => None
    | c :: s' =>
        if in_cset rt cs c
        then let n := length s - length (drop_run (in_cset rt cs) s') in
             Some {| m_start := pos; m_end := pos + n;
                     m_text := firstn n s; m_groups := [] |}
        else None
    end.
Proof.
  unfold match_here. cbn [RPlus rmatch_at].
  destruct s as [|c s']; [reflexivity|].
  destruct (in_cset rt cs c); [|reflexivity].
  rewrite (star_total cs
             (fun rest =>
                {| m_start := pos;
                   m_end := pos + (length (c :: s') - length rest);
                   m_text := firstn (length (c :: s') - length rest) (c :: s');
                   m_groups := [] |})).
  reflexivity.
Qed.

(** Skipping the characters that a match covers. *)
Lemma finditer_from_skip (r : regex) (n : nat) :
  forall (pos : nat) (s : pystr),
  n <= length s ->
  finditer_from rt r pos n s = finditer_from rt r (pos + n) 0 (skipn n s).
Proof.
  induction n as [|n IH]; intros pos s L.
  - rewrite Nat.add_0_r. reflexivity.
  - destruct s as [|c s]; [simpl in L; lia|].
    cbn [finditer_from skipn]. rewrite IH by (simpl in L; lia).
    replace (S pos + n) with (pos + S n) by lia. reflexivity.
Qed.

Lemma re_sub_from_shift (repl : pystr) (c : N) (s : pystr) (pos : nat)
    (ms : list rmatch) :
  Forall (fun m => S pos <= m_start m /\ m_start m <= m_end m) ms ->
  re_sub_from repl ms pos (c :: s) = c :: re_sub_from repl ms (S pos) s.
Proof.
  intros F. destruct ms as [|m ms]; [reflexivity|].
  inversion F as [|? ? [A B] _]; subst. cbn [re_sub_from].
  replace (m_start m - pos) with (S (m_start m - S pos)) by lia.
  replace (m_end m - pos) with (S (m_end m - S pos)) by lia.
  reflexivity.
Qed.

Lemma squash_in_run (p : N -> bool) (repl s : pystr) :
  squash p repl true s = squash p repl false (drop_run p s).
Proof.
  induction s as [|c s IH]; [reflexivity|]. simpl.
  destruct (p c) eqn:P; [exact IH|]. simpl. rewrite P. reflexivity.
Qed.

(** Substituting for runs of a class is squashing them. *)
Lemma re_sub_from_squash (cs : cset) (repl : pystr) :
  forall (n : nat) (s : pystr) (pos : nat),
  length s <= n ->
  re_sub_from repl (finditer_from rt (RPlus true cs) pos 0 s) pos s
  = squash (in_cset rt cs) repl false s.
Proof.
  induction n as [|n IH]; intros s pos L.
  - destruct s; [|simpl in L; lia]. reflexivity.
  - destruct s as [|c s]; [reflexivity|].
    cbn [finditer_from]. rewrite match_here_plus. cbn [squash].
    destruct (in_cset rt cs c) eqn:C.
    + cbv zeta. cbn [re_sub_from m_start m_end].
      rewrite Nat.sub_diag. cbn [firstn app].
      pose proof (drop_run_length (in_cset rt cs) s) as D.
      replace (pos + (length (c :: s) - length (drop_run (in_cset rt cs) s))
               - pos)
        with (S (length s - length (drop_run (in_cset rt cs) s)))
        by (cbn [length]; lia).
      replace (pred (S (length s - length (drop_run (in_cset rt cs) s))))
        with (length s - length (drop_run (in_cset rt cs) s)) by lia.
      cbn [skipn].
      rewrite finditer_from_skip by lia.
      rewrite !drop_run_skipn.
      replace (S pos + (length s - length (drop_run (in_cset rt cs) s)))
        with (pos + (length (c :: s) - length (drop_run (in_cset rt cs) s)))
        by (cbn [length]; lia).
      rewrite IH by (simpl in L; lia).
      rewrite squash_in_run. reflexivity.
    + rewrite re_sub_from_shift.
      * rewrite IH by (simpl in L; lia). reflexivity.
      * eapply Forall_impl; [|apply finditer_from_bound].
        intros m [B [s' W]]. split; [lia|].
        destruct (match_here_inv _ _ _ _ _ W) as [_ [X _]]. exact X.
Qed.

Lemma re_sub_squash (cs : cset) (repl s : pystr) :
  re_sub rt (RPlus true cs) repl s = squash (in_cset rt cs) repl false s.
Proof. unfold re_sub, re_finditer. eapply re_sub_from_squash. apply le_n. Qed.

End MigrationFacts.

Section FilenameFacts.

Variable rt : runtime.
Variable str_lower : pystr -> pystr.

Lemma squash_chars (p : N -> bool) (u : N) (s : pystr) (b : bool) :
  Forall (fun c => p c = false \/ c = u) (squash p [u] b s).
Proof.
  revert b. induction s as [|c s IH]; intros b; simpl; [constructor|].
  destruct (p c) eqn:P.
  - destruct b; simpl; [apply IH|]. constructor; [right; reflexivity | apply IH].
  - constructor; [left; exact P | apply IH].
Qed.

Lemma squash_no_double (p : N -> bool) (u : N) (s : pystr) :
  p u = true ->
  forall b,
  has_double u (squash p [u] b s) = false
  /\ hd_error (squash p [u] true s) <> Some u.
Proof.
  intros PU. induction s as [|c s IH]; intros b.
  - simpl. split; [reflexivity | discriminate].
  - destruct (IH true) as [T1 T2]. destruct (IH false) as [F1 _].
    simpl. destruct (p c) eqn:P.
    + split; [|exact T2].
      destruct b; [exact T1|]. cbn [app has_double].
      rewrite T1, orb_false_r.
      destruct (squash p [u] true s) as [|y t]; [apply andb_false_r|].
      assert (NY : N.eqb y u = false).
      { apply N.eqb_neq. intros ->. apply T2. reflexivity. }
      rewrite NY. apply andb_false_r.
    + assert (NC : N.eqb c u = false)
        by (apply N.eqb_neq; intros ->; congruence).
      split.
      * cbn [has_double]. rewrite NC, F1. reflexivity.
      * cbn [hd_error]. intros E. inversion E; subst.
        rewrite N.eqb_refl in NC. discriminate.
Qed.

Lemma has_double_app (u : N) (a b : pystr) :
  has_double u (a ++ b) = false ->
  has_double u a = false /\ has_double u b = false.
Proof.
  induction a as [|x a IH]; intros H; [auto|].
  cbn [app has_double] in H. apply orb_false_iff in H. destruct H as [H1 H2].
  destruct (IH H2) as [A B]. split; [|exact B].
  cbn [has_double]. rewrite A, orb_false_r.
  destruct a as [|y a]; [apply andb_false_r | exact H1].
Qed.

Lemma lstrip_suffix (u : N) (s : pystr) :
  exists before, s = before ++ lstrip u s.
Proof.
  induction s as [|x s [before IH]]; [exists []; reflexivity|].
  simpl. destruct (N.eqb x u).
  - exists (x :: before). rewrite IH at 1. reflexivity.
  - exists []. reflexivity.
Qed.

Lemma rstrip_prefix (u : N) (s : pystr) :
  exists after, s = rstrip u s ++ after.
Proof.
  unfold rstrip. destruct (lstrip_suffix u (rev s)) as [before E].
  exists (rev before). rewrite <- rev_app_distr, <- E, rev_involutive.
  reflexivity.
Qed.

Lemma lstrip_hd (u : N) (s : pystr) : hd_error (lstrip u s) <> Some u.
Proof.
  induction s as [|x s IH]; simpl; [discriminate|].
  destruct (N.eqb x u) eqn:E; [exact IH|].
  simpl. intros H. inversion H; subst. rewrite N.eqb_refl in E. discriminate.
Qed.

Lemma rstrip_hd (u : N) (s : pystr) :
  hd_error s <> Some u -> hd_error (rstrip u s) <> Some u.
Proof.
  intros H. destruct (rstrip_prefix u s) as [after E].
  destruct (rstrip u s) as [|x t]; [discriminate|].
  rewrite E in H. exact H.
Qed.

(** X11: the sanitised part of a migration file name is made of
    lower-case ASCII letters, digits and underscores, neither begins
    nor ends with an underscore, and has no two underscores in a row:
    every run of other characters of the lowered name has become one
    underscore.  The file name is the timestamp, an underscore, that
    part, and the extension. *)
Theorem migration_filename_safe (timestamp name : pystr) :
  let safe := sanitize rt str_lower name in
  generate_migration_filename rt str_lower timestamp name
  = timestamp ++ py "_" ++ safe ++ py ".sql"
  /\ safe
     = strip UNDERSCORE
         (squash (in_cset rt (CNoneOf LOWER_ALNUM)) [UNDERSCORE] false
            (str_lower name))
  /\ Forall (fun c => In c LOWER_ALNUM \/ c = UNDERSCORE) safe
  /\ hd_error safe <> Some UNDERSCORE
  /\ hd_error (rev safe) <> Some UNDERSCORE
  /\ has_double UNDERSCORE safe = false.
Proof.
  cbv zeta. split; [reflexivity|].
  unfold sanitize, unsafe_run. rewrite re_sub_squash.
  set (q := squash (in_cset rt (CNoneOf LOWER_ALNUM)) [UNDERSCORE] false
              (str_lower name)).
  split; [reflexivity|].
  assert (C : Forall (fun c => In c LOWER_ALNUM \/ c = UNDERSCORE) q).
  { eapply Forall_impl; [|apply squash_chars].
    intros c [P | E]; [left | right; exact E].
    cbn [in_cset] in P. apply negb_false_iff in P.
    apply existsb_exists in P. destruct P as [x [I X]].
    apply N.eqb_eq in X. subst. exact I. }
  assert (D : has_double UNDERSCORE q = false).
  { apply squash_no_double. vm_compute. reflexivity. }
  unfold strip.
  destruct (lstrip_suffix UNDERSCORE q) as [before E1].
  destruct (rstrip_prefix UNDERSCORE (lstrip UNDERSCORE q)) as [after E2].
  set (safe := rstrip UNDERSCORE (lstrip UNDERSCORE q)) in *.
  assert (E : q = before ++ safe ++ after) by (rewrite E1 at 1; rewrite E2 at 1; reflexivity).
  repeat split.
  - rewrite E in C. apply Forall_app in C. destruct C as [_ C].
    apply Forall_app in C. tauto.
  - apply rstrip_hd. apply lstrip_hd.
  - unfold safe, rstrip. rewrite rev_involutive. apply lstrip_hd.
  - rewrite E in D. apply has_double_app in D. destruct D as [_ D].
    apply has_double_app in D. tauto.
Qed.

End FilenameFacts.

(** ** Detection and extraction agree on JavaScript frames *)

Section DetectionFacts.

Variable rt : runtime.

Lemma star_none_ext (A B : Type) (cs : cset) (greedy : bool) (s : pystr)
    (k : pystr -> option A) (k' : pystr -> option B) :
  (forall a, k a = None <-> k' a = None) ->
  (star rt cs greedy s k = None <-> star rt cs greedy s k' = None).
Proof.
  intros K. induction s as [|x s IH]; simpl; [apply K|].
  destruct (in_cset rt cs x); [|apply K].
  destruct greedy; apply orelse_none; auto.
Qed.

(** Capturing groups do not change whether an expression matches. *)
Lemma rmatch_at_erase (icase : bool) (A B : Type) (r : regex) :
  forall (s : pystr) (gs gt : list (nat * pystr))
         (k : pystr -> list (nat * pystr) -> option A)
         (k' : pystr -> list (nat * pystr) -> option B),
  (forall a g h, k a g = None <-> k' a h = None) ->
  (rmatch_at rt icase r s gs k = None
   <-> rmatch_at rt icase (erase_groups r) s gt k' = None).
Proof.
  induction r as [c | cs | r1 IH1 r2 IH2 | r1 IH1 r2 IH2 | r1 IH1
                 | greedy cs | j r1 IH1]; intros s gs gt k k' K;
    cbn [erase_groups rmatch_at].
  - destruct s as [|x s]; [tauto|].
    destruct (char_matches rt icase c x); [apply K | tauto].
  - destruct s as [|x s]; [tauto|].
    destruct (in_cset rt cs x); [apply K | tauto].
  - apply IH1. intros a g h. apply IH2. exact K.
  - apply orelse_none; [apply IH1 | apply IH2]; exact K.
  - apply orelse_none; [apply IH1; exact K | apply K].
  - apply star_none_ext. intros a. apply K.
  - apply IH1. intros a g h. apply K.
Qed.

Lemma match_here_erase (icase : bool) (r : regex) (p q : nat) (s : pystr) :
  match_here rt icase r p s = None
  <-> match_here rt icase (erase_groups r) q s = None.
Proof.
  unfold match_here. apply rmatch_at_erase. intros; split; discriminate.
Qed.

Lemma search_from_erase (icase : bool) (r : regex) (s : pystr) :
  forall p q,
  search_from rt icase r p s = None
  <-> search_from rt icase (erase_groups r) q s = None.
Proof.
  induction s as [|x s IH]; intros p q; simpl.
  - apply orelse_none; [apply match_here_erase | tauto].
  - apply orelse_none; [apply match_here_erase | apply IH].
Qed.

(** [re.finditer] finds nothing exactly when [re.search] does. *)
Lemma finditer_from_nil (r : regex) (s : pystr) :
  forall pos,
  finditer_from rt r pos 0 s = [] <-> search_from rt false r pos s = None.
Proof.
  induction s as [|x s IH]; intros pos; simpl.
  - destruct (match_here rt false r pos []); split; try discriminate; auto.
  - destruct (match_here rt false r pos (x :: s));
      [split; discriminate | apply IH].
Qed.

Lemma js_probe_erased : js_probe = erase_groups js_pattern.
Proof. reflexivity. Qed.

Lemma js_frames_iff_probe (log : pystr) :
  re_finditer rt js_pattern log = []
  <-> re_search rt false js_probe log = None.
Proof.
  unfold re_finditer, re_search. rewrite finditer_from_nil, js_probe_erased.
  apply search_from_erase.
Qed.

Lemma detect_javascript_inv (log : pystr) :
  detect_log_format rt log = Ok (py "javascript") ->
  json_loads rt (detect_depth rt) log = JSONDecodeError
  /\ re_search rt false js_probe log <> None.
Proof.
  unfold detect_log_format.
  destruct (json_loads rt (detect_depth rt) log);
    [intros E; vm_compute in E; discriminate | | discriminate].
  destruct (contains TRACEBACK_HEADER log);
    [intros E; vm_compute in E; discriminate|].
  destruct (re_search rt false js_probe log);
    [intros _; split; [reflexivity | discriminate]
    | intros E; vm_compute in E; discriminate].
Qed.

Lemma detect_plain_inv (log : pystr) :
  detect_log_format rt log = Ok (py "plain") ->
  json_loads rt (detect_depth rt) log = JSONDecodeError
  /\ re_search rt false js_probe log = None.
Proof.
  unfold detect_log_format.
  destruct (json_loads rt (detect_depth rt) log);
    [intros E; vm_compute in E; discriminate | | discriminate].
  destruct (contains TRACEBACK_HEADER log);
    [intros E; vm_compute in E; discriminate|].
  destruct (re_search rt false js_probe log);
    [intros E; vm_compute in E; discriminate | auto].
Qed.

(** X12: a text that is detected as javascript has at least one
    JavaScript frame: under auto the analysis returns, its frames are
    not empty, and its suggestions name the first of them. *)
Theorem javascript_detection_gives_frames (log : pystr) :
  detect_log_format rt log = Ok (py "javascript") ->
  re_finditer rt js_pattern log <> []
  /\ exists r f,
       analyze_error rt log (py "auto") = Ok r
       /\ format_detected r = py "javascript"
       /\ stack_frames r = extract_stack_frames rt log
       /\ hd_error (stack_frames r) = Some f
       /\ In (location_suggestion f) (suggestions r).
Proof.
  intros D. destruct (detect_javascript_inv log D) as [NJ P].
  assert (J : re_finditer rt js_pattern log <> []).
  { intros E. apply js_frames_iff_probe in E. contradiction. }
  split; [exact J|].
  assert (F : resolve_format rt log (py "auto") = Ok (py "javascript")).
  { unfold resolve_format. rewrite pystr_eqb_refl. exact D. }
  assert (NE : extract_stack_frames rt log <> []).
  { rewrite extract_stack_frames_eq. intros E. apply app_eq_nil in E.
    destruct E as [_ E]. apply map_eq_nil in E. contradiction. }
  destruct (extract_stack_frames rt log) as [|f frames] eqn:X; [congruence|].
  eexists. exists f. split.
  - rewrite analyze_error_eq, F. cbn [bind].
    rewrite unwrap_json_unchanged
      by (left; intros E; vm_compute in E; discriminate).
    cbn [bind]. unfold analysis_of. cbv zeta. rewrite X. reflexivity.
  - cbn [format_detected stack_frames suggestions hd_error].
    repeat split. unfold suggestions_for.
    apply in_or_app. right. left. reflexivity.
Qed.

(** X13: a text that is detected as plain has no JavaScript frame:
    every frame of its analysis under auto is a Python frame. *)
Theorem plain_detection_has_no_js_frame (log : pystr) :
  detect_log_format rt log = Ok (py "plain") ->
  re_finditer rt js_pattern log = []
  /\ exists r,
       analyze_error rt log (py "auto") = Ok r
       /\ format_detected r = py "plain"
       /\ stack_frames r = map py_frame (re_finditer rt py_pattern log).
Proof.
  intros D. destruct (detect_plain_inv log D) as [NJ P].
  assert (J : re_finditer rt js_pattern log = [])
    by (apply js_frames_iff_probe; exact P).
  split; [exact J|].
  assert (F : resolve_format rt log (py "auto") = Ok (py "plain")).
  { unfold resolve_format. rewrite pystr_eqb_refl. exact D. }
  eexists. split.
  - rewrite analyze_error_eq, F. cbn [bind].
    rewrite unwrap_json_unchanged
      by (left; intros E; vm_compute in E; discriminate).
    cbn [bind]. reflexivity.
  - cbn [analysis_of format_detected stack_frames]. split; [reflexivity|].
    rewrite extract_stack_frames_eq, J. cbn [map]. apply app_nil_r.
Qed.

End DetectionFacts.

(** ** The further properties on concrete texts *)


Lemma json_mapping_other_fields_ignored_witness :
  json_loads ascii_runtime (analyze_depth ascii_runtime) Samples.detail_frame
  = Loaded (JDict MoreSamples.detail_mapping)
  /\ analyze_error ascii_runtime Samples.detail_frame (py "auto")
     = Ok Samples.detail_analysis.
Proof.
  assert (P : json_loads ascii_runtime (analyze_depth ascii_runtime)
                Samples.detail_frame
              = Loaded (JDict MoreSamples.detail_mapping))
    by (vm_compute; reflexivity).
  split; [exact P|].
  apply (@json_mapping_other_fields_ignored ascii_runtime Samples.detail_frame
           (py "auto") MoreSamples.detail_mapping);
    [vm_compute; reflexivity | exact P | | |];
    intros [E | []]; vm_compute in E; discriminate.
Defined.

Lemma errors_found_entries_witness :
  analyze_error ascii_runtime Samples.key_error (py "auto")
  = Ok Samples.key_error_analysis
  /\ NoDup (map pattern (errors_found Samples.key_error_analysis))
  /\ length (errors_found Samples.key_error_analysis) <= 19.
Proof.
  assert (H : analyze_error ascii_runtime Samples.key_error (py "auto")
              = Ok Samples.key_error_analysis) by (vm_compute; reflexivity).
  split; [exact H|].
  destruct (@errors_found_entries ascii_runtime Samples.key_error (py "auto")
              (py "plain") Samples.key_error Samples.key_error_analysis H)
    as [_ [N [L _]]]; [vm_compute; reflexivity | vm_compute; reflexivity|].
  split; assumption.
Defined.

Lemma no_errors_iff_no_match_witness :
  analyze_error ascii_runtime Samples.detail_frame (py "auto")
  = Ok Samples.detail_analysis
  /\ forall sig, In sig (ERROR_PATTERNS ascii_runtime) ->
       ~ matches_somewhere ascii_runtime true (sig_regex sig) (py "  ").
Proof.
  assert (H : analyze_error ascii_runtime Samples.detail_frame (py "auto")
              = Ok Samples.detail_analysis) by (vm_compute; reflexivity).
  split; [exact H|].
  apply (@no_errors_iff_no_match ascii_runtime Samples.detail_frame (py "auto")
           (py "json") (py "  ") Samples.detail_analysis H);
    [vm_compute; reflexivity | vm_compute; reflexivity | reflexivity].
Defined.

Lemma http_explains_last_digits_witness :
  re_search ascii_runtime true (sig_regex (HTTP_SIGNATURE ascii_runtime))
    MoreSamples.http_url
  = Some MoreSamples.http_url_match
  /\ exists d1 d2 d3,
       group_str MoreSamples.http_url_match 1 = [d1; d2; d3].
Proof.
  assert (H : re_search ascii_runtime true
                (sig_regex (HTTP_SIGNATURE ascii_runtime)) MoreSamples.http_url
              = Some MoreSamples.http_url_match) by (vm_compute; reflexivity).
  split; [exact H|].
  destruct (@http_explains_last_digits ascii_runtime MoreSamples.http_url
              MoreSamples.http_url_match H) as [d1 [d2 [d3 [before [G _]]]]].
  exists d1, d2, d3. exact G.
Defined.

Lemma matching_ignores_case_witness :
  same_up_to_case MoreSamples.upper_key_error Samples.key_error
  /\ map pattern
       (flat_map (signature_hit ascii_runtime MoreSamples.upper_key_error)
          (ERROR_PATTERNS ascii_runtime))
     = map pattern
         (flat_map (signature_hit ascii_runtime Samples.key_error)
            (ERROR_PATTERNS ascii_runtime)).
Proof.
  assert (S : same_up_to_case MoreSamples.upper_key_error Samples.key_error).
  { unfold same_up_to_case.
    repeat (apply Forall2_cons;
            [first [left; reflexivity
                   | right; left; split; reflexivity
                   | right; right; split; reflexivity]|]).
    apply Forall2_nil. }
  split; [exact S|].
  apply (@matching_ignores_case ascii_runtime MoreSamples.upper_key_error
           Samples.key_error S).
Defined.

Lemma report_frame_witness :
  analyze_error ascii_runtime Samples.key_error (py "auto")
  = Ok Samples.key_error_analysis
  /\ exists body,
       format_analysis Samples.key_error_analysis
       = body ++ join [NL] (map (fun s => py "- " ++ s) GENERIC_SUGGESTIONS).
Proof.
  assert (H : analyze_error ascii_runtime Samples.key_error (py "auto")
              = Ok Samples.key_error_analysis) by (vm_compute; reflexivity).
  split; [exact H|].
  destruct (@report_frame ascii_runtime Samples.key_error (py "auto")
              Samples.key_error_analysis H) as [_ B].
  exact B.
Defined.

Lemma javascript_detection_gives_frames_witness :
  detect_log_format ascii_runtime Samples.js_only = Ok (py "javascript")
  /\ re_finditer ascii_runtime js_pattern Samples.js_only <> [].
Proof.
  assert (D : detect_log_format ascii_runtime Samples.js_only
              = Ok (py "javascript")) by (vm_compute; reflexivity).
  split; [exact D|].
  destruct (@javascript_detection_gives_frames ascii_runtime Samples.js_only D)
    as [J _].
  exact J.
Defined.

Lemma plain_detection_has_no_js_frame_witness :
  detect_log_format ascii_runtime Samples.python_frame_line = Ok (py "plain")
  /\ re_finditer ascii_runtime js_pattern Samples.python_frame_line = [].
Proof.
  assert (D : detect_log_format ascii_runtime Samples.python_frame_line
              = Ok (py "plain")) by (vm_compute; reflexivity).
  split; [exact D|].
  destruct (@plain_detection_has_no_js_frame ascii_runtime
              Samples.python_frame_line D) as [J _].
  exact J.
Defined.
